(** * tree2fs: the command-line driver and the tree-text parser

    A shallow embedding of [src/tree2fs/cli/main.py] together with the
    node model it shares with the parser backends, and of the tree-text
    parser that the driver calls.

    Layout: the definitions come first (node model, [pathlib] fragment,
    the driver [Cli.main], the tree-text parser [TreeParser]), the
    theorems follow. *)

From Stdlib Require Import String Ascii List ZArith Bool Lia.
Import ListNotations.
Set Warnings "-register-all".
Local Open Scope string_scope.
Local Open Scope list_scope.

(* ===================================================================== *)
(** ** Node model *)
(* ===================================================================== *)

(** The tag of a node. *)
Inductive Kind : Type := Directory | File.

(** The in-memory tree both parser backends produce and the filesystem
    builder consumes.  [children] is ordered. *)
Inductive Node : Type :=
  mkNode { name : string; kind : Kind; children : list Node }.

(** *** Traversals *)

(** All the nodes of a tree in pre-order: the node, then the nodes of its
    children from first to last. *)
Fixpoint nodes (n : Node) : list Node :=
  match n with
  | mkNode _ _ cs => n :: flat_map nodes cs
  end.

(** The pre-order listing of a tree with the depth of every node, the
    root standing at depth [d]. *)
Fixpoint flat_node (d : Z) (n : Node) : list (Z * string) :=
  match n with
  | mkNode nm _ cs => (d, nm) :: flat_map (flat_node (d + 1)) cs
  end.

(** A position in a tree: the child indices from the root down. *)
Definition Pos : Type := list nat.

Fixpoint subtree_at (p : Pos) (n : Node) : option Node :=
  match p with
  | [] => Some n
  | i :: p' =>
      match nth_error (children n) i with
      | Some c => subtree_at p' c
      | None => None
      end
  end.

(** The positions of the children [cs], numbered from [i], each followed
    by the positions below it as [visit] lists them. *)
Fixpoint forest_positions (visit : Node -> list Pos) (i : nat) (cs : list Node)
  : list Pos :=
  match cs with
  | [] => []
  | c :: cs' => map (cons i) (visit c) ++ forest_positions visit (S i) cs'
  end.

(** The positions of a tree in the order a pre-order traversal visits
    them. *)
Fixpoint preorder (n : Node) : list Pos :=
  match n with
  | mkNode _ _ cs => [] :: forest_positions preorder 0 cs
  end.

(** [x] comes before [y] in [l]. *)
Definition before {A : Type} (x y : A) (l : list A) : Prop :=
  exists l1 l2 l3, l = l1 ++ x :: l2 ++ y :: l3.

(** The exception the parsers raise: a human-readable message and, where
    available, the offending line number. *)
Record TreeParseError : Type :=
  mkTreeParseError { message : string; lineno : option nat }.

(* ===================================================================== *)
(** ** Strings *)
(* ===================================================================== *)

(** The line-feed character and the one-character string holding it. *)
Definition LF : ascii := ascii_of_nat 10.
Definition nl : string := String LF EmptyString.

(** [str.split(sep)] for a one-character separator: the pieces between
    the occurrences of [sep], empty pieces included; never the empty
    list. *)
Fixpoint split (sep : ascii) (s : string) : list string :=
  match s with
  | EmptyString => [EmptyString]
  | String c rest =>
      if Ascii.eqb c sep then EmptyString :: split sep rest
      else match split sep rest with
           | [] => [String c EmptyString]
           | w :: ws => String c w :: ws
           end
  end.

(* ===================================================================== *)
(** ** The fragment of [pathlib] the driver uses (POSIX flavour)

    A [Path] is represented by the string it was built from; the driver
    only reads [.name] and [.absolute()] of it. *)
(* ===================================================================== *)

(** The components of a POSIX path: the pieces between slashes, the empty
    ones and the ["."] ones dropped. *)
Definition Path_parts (p : string) : list string :=
  filter (fun c => negb (c =? "") && negb (c =? ".")) (split "/" p).

(** [Path(p).name]: the final component, the empty string when there is
    none (as for ["/"]). *)
Definition Path_name (p : string) : string := last (Path_parts p) "".

(* ===================================================================== *)
(** ** The driver: [src/tree2fs/cli/main.py] *)
(* ===================================================================== *)

Module Cli.

(** [--format], restricted by [choices=['txt', 'json']]. *)
Inductive Format : Type := txt | json.

(** The namespace [parser.parse_args()] returns. *)
Record Args : Type := mkArgs {
  tree_file : string;
  format : Format;          (* default txt *)
  base_dir : string;        (* default "." *)
  dry_run : bool;
  verbose : bool;
  no_skip_root : bool
}.

(** The exceptions that can reach the handlers of [main], by the handler
    that takes them. *)
Inductive PyExc : Type :=
| FileNotFoundError (msg : string)
| ExTreeParseError (e : TreeParseError)
| FilesystemBuildError (msg : string)
| KeyboardInterrupt
| Exception (msg : string)        (* any other subclass of Exception *)
| BaseException (msg : string).   (* not an Exception: no handler *)

(** A [FilesystemBuilder] instance, as constructed at lines 105-109. *)
Record Builder : Type := mkBuilder {
  b_base_path : string;
  b_dry_run : bool;
  b_verbose : bool
}.

(** What a run of [main] does to its surroundings, in order. *)
Inductive Event : Type :=
| EvJsonBuildTree (tree_file_path : string)   (* JsonParser().build_tree(p) *)
| EvTreeBuildTree (tree_file_path : string)   (* TreeParser().build_tree(p) *)
| EvCwd                                       (* Path.cwd() *)
| EvNewBuilder (b : Builder)                  (* FilesystemBuilder(...) *)
| EvBuild (root : Node) (skip_root : bool)    (* builder.build(root, skip_root=...) *)
| EvPrintSummary                              (* builder.print_summary() *)
| EvStdout (s : string)                       (* print(s) *)
| EvStderr (s : string)                       (* print(s, file=sys.stderr) *)
| EvTraceback.                                (* traceback.print_exc() *)

(** The collaborators of [main]: each call returns or raises. *)
Record World : Type := mkWorld {
  JsonParser_build_tree : string -> PyExc + (Node * string);
  TreeParser_build_tree : string -> PyExc + (Node * string);
  Path_cwd : PyExc + string;
  Path_absolute : string -> string;
  FilesystemBuilder_init : string -> bool -> bool -> PyExc + Builder;
  FilesystemBuilder_build : Builder -> Node -> bool -> PyExc + unit;
  FilesystemBuilder_print_summary : Builder -> PyExc + unit
}.

(** Computations of [main]: the events so far and a value or the
    exception that cut the computation short. *)
Definition M (A : Type) : Type := (list Event * (PyExc + A))%type.

Definition ret {A : Type} (a : A) : M A := ([], inr a).

Definition bind {A B : Type} (m : M A) (k : A -> M B) : M B :=
  match m with
  | (t, inl e) => (t, inl e)
  | (t, inr a) => let (t', r) := k a in (t ++ t', r)
  end.

Notation "x <- m ;; k" := (bind m (fun x => k))
  (at level 61, m at next level, right associativity).
Notation "m ;;; k" := (bind m (fun _ => k))
  (at level 61, right associativity).

(** A call to a collaborator: logged, then its outcome. *)
Definition call {A : Type} (ev : Event) (r : PyExc + A) : M A := ([ev], r).

Definition print (s : string) : M unit := ([EvStdout s], inr tt).

Definition when (b : bool) (m : M unit) : M unit := if b then m else ret tt.

Definition Format_is_json (f : Format) : bool :=
  match f with json => true | txt => false end.

(** [str(e)] of the exceptions the handlers print. *)
Definition str_TreeParseError (e : TreeParseError) : string := message e.

(** Lines 80-89: the parser backend picked by [args.format]. *)
Definition parse (w : World) (args : Args) : M (Node * string) :=
  let tree_file_path := tree_file args in
  if Format_is_json (format args) then
    call (EvJsonBuildTree tree_file_path) (JsonParser_build_tree w tree_file_path)
  else
    when (verbose args)
         (print ("📖 Parsing tree file: " ++ tree_file_path)) ;;;
    call (EvTreeBuildTree tree_file_path) (TreeParser_build_tree w tree_file_path).

(** Lines 90-93: [args.base_dir in [".", ""]] selects the working
    directory. *)
Definition resolve_base_path (w : World) (args : Args) : M string :=
  if (base_dir args =? ".") || (base_dir args =? "") then
    call EvCwd (Path_cwd w)
  else ret (base_dir args).

(** Lines 95-97:
    [not args.no_skip_root and root_name and base_path.name == root_name];
    a string is truthy when it is not empty. *)
Definition should_skip_root (args : Args) (base_path root_name : string) : bool :=
  negb (no_skip_root args) && negb (root_name =? "")
  && (Path_name base_path =? root_name).

(** Lines 98-103: the progress lines of a verbose run. *)
Definition announce (w : World) (args : Args) (base_path root_name : string)
    (skip : bool) : M unit :=
  when (skip && verbose args)
       (print ("⏭️  Skipping root folder '" ++ root_name ++ "' (already in it)")) ;;;
  when (verbose args)
       (print ("🏗️  Building structure in: " ++ Path_absolute w base_path ++ nl)).

(** Lines 111-117: the build, the summary and the exit code. *)
Definition build_and_report (w : World) (args : Args) (builder : Builder)
    (root : Node) (skip : bool) : M Z :=
  call (EvBuild root skip) (FilesystemBuilder_build w builder root skip) ;;;
  call EvPrintSummary (FilesystemBuilder_print_summary w builder) ;;;
  when (negb (dry_run args))
       (print (nl ++ "✅ Structure created successfully!")) ;;;
  ret 0%Z.

(** Lines 80-117: the body of the [try]. *)
Definition try_body (w : World) (args : Args) : M Z :=
  rr <- parse w args ;;
  let (root, root_name) := rr : Node * string in
  base_path <- resolve_base_path w args ;;
  let skip := should_skip_root args base_path root_name in
  announce w args base_path root_name skip ;;;
  builder <- call (EvNewBuilder (mkBuilder base_path (dry_run args) (verbose args)))
                  (FilesystemBuilder_init w base_path (dry_run args) (verbose args)) ;;
  build_and_report w args builder root skip.

(** Lines 119-133: the handlers, in the order they are tried. *)
Definition handle (args : Args) (e : PyExc) : M Z :=
  match e with
  | FileNotFoundError msg =>
      ([EvStderr ("❌ Error: " ++ msg)], inr 1%Z)
  | ExTreeParseError pe =>
      ([EvStderr ("❌ Error: " ++ str_TreeParseError pe)], inr 1%Z)
  | FilesystemBuildError msg =>
      ([EvStderr ("❌ Error: " ++ msg)], inr 1%Z)
  | KeyboardInterrupt =>
      ([EvStderr (nl ++ "⚠️  Interrupted by user")], inr 130%Z)
  | Exception msg =>
      ([EvStderr ("❌ Unexpected error: " ++ msg)]
         ++ (if verbose args then [EvTraceback] else []), inr 1%Z)
  | BaseException msg => ([], inl (BaseException msg))
  end.

(** [main()], after [parser.parse_args()] returned [args]: the events of
    the run and the exit code (or the exception no handler takes). *)
Definition main (w : World) (args : Args) : M Z :=
  match try_body w args with
  | (t, inr code) => (t, inr code)
  | (t, inl e) => let (t', r) := handle args e in (t ++ t', r)
  end.

(** The events of a run and its outcome. *)
Definition trace {A : Type} (m : M A) : list Event := fst m.
Definition outcome {A : Type} (m : M A) : PyExc + A := snd m.

(** The outcome of the backend that [args.format] selects. *)
Definition selected_build_tree (w : World) (args : Args)
  : PyExc + (Node * string) :=
  match format args with
  | json => JsonParser_build_tree w (tree_file args)
  | txt => TreeParser_build_tree w (tree_file args)
  end.

(** The call event of the backend that [args.format] selects. *)
Definition selected_call (args : Args) : Event :=
  match format args with
  | json => EvJsonBuildTree (tree_file args)
  | txt => EvTreeBuildTree (tree_file args)
  end.

Definition is_parser_call (ev : Event) : bool :=
  match ev with
  | EvJsonBuildTree _ | EvTreeBuildTree _ => true
  | _ => false
  end.

Definition is_builder_event (ev : Event) : bool :=
  match ev with
  | EvNewBuilder _ | EvBuild _ _ | EvPrintSummary => true
  | _ => false
  end.

(** The arguments of the calls of [builder.build] in a trace, in order. *)
Fixpoint build_calls (t : list Event) : list (Node * bool) :=
  match t with
  | [] => []
  | EvBuild root skip :: t' => (root, skip) :: build_calls t'
  | _ :: t' => build_calls t'
  end.

(** A tree-text backend over a file table: reads the file, then parses
    its text with [parse_text]. *)
Definition backend_of_files (files : list (string * string))
    (parse_text : string -> TreeParseError + (Node * string))
    (path : string) : PyExc + (Node * string) :=
  match find (fun kv => fst kv =? path) files with
  | None => inl (FileNotFoundError path)
  | Some (_, text) =>
      match parse_text text with
      | inl e => inl (ExTreeParseError e)
      | inr r => inr r
      end
  end.

End Cli.

(* ===================================================================== *)
(** ** The tree-text parser

    [src/tree2fs/parser/tree_parser.py] is imported by the package but is
    not among the sources; the definitions of this module follow the
    specification of the parser instead (its sections 3, 4, 6 and 7).

    Where the specification leaves a choice open, the model takes these:
    - the indentation unit is the fixed four display columns, which is
      also the width of every connector sequence of section 6;
    - a blank character is a space, a tab or a carriage return;
    - after the one trailing separator is stripped, a name that still
      holds a separator is rejected (names are single path segments);
    - an input without lines, or whose first line is indented, has no root
      and is rejected;
    - the context heuristic for the kind of a childless node is a
      parameter of the builder;
    - the wording of the error messages is not part of the
      specification.

    A stack entry owns the node it opened; the node of an entry that is
    popped is appended to the children of the entry below.  This is the
    functional reading of the mutable stack of section 4.2, where the
    node is appended to its parent when it is created and its children
    are appended to it afterwards: the tree that results is the same. *)
(* ===================================================================== *)

Module TreeParser.

(** Modelled from the spec: a step of the parser returns or raises
    [TreeParseError], the single error kind of section 7. *)
Definition result (A : Type) : Type := (TreeParseError + A)%type.

(** Modelled from the spec: the error carries a message and the number
    of the offending line (section 7). *)
Definition raise {A : Type} (msg : string) (no : nat) : result A :=
  inl (mkTreeParseError msg (Some no)).

(** *** Characters and glyph sequences *)

(** Modelled from the spec: the whitespace of a blank line: space, tab
    and carriage return. *)
Definition is_space (c : ascii) : bool :=
  Ascii.eqb c " " || Ascii.eqb c (ascii_of_nat 9) || Ascii.eqb c (ascii_of_nat 13).

(** Modelled from the spec: blank lines are filtered upstream of the
    classifier; the test for a blank line is missing from the sources. *)
Fixpoint is_blank (s : string) : bool :=
  match s with
  | EmptyString => true
  | String c rest => is_space c && is_blank rest
  end.

(** Modelled from the spec: stripping a known sequence: [strip_prefix p s]
    is [Some r] when [s] is [p] followed by [r]. *)
Fixpoint strip_prefix (p s : string) : option string :=
  match p with
  | EmptyString => Some s
  | String a p' =>
      match s with
      | EmptyString => None
      | String b s' => if Ascii.eqb a b then strip_prefix p' s' else None
      end
  end.

(** Modelled from the spec: the rest of [s] after the first of the known
    sequences [units] that starts it. *)
Fixpoint first_unit (units : list string) (s : string) : option string :=
  match units with
  | [] => None
  | u :: units' =>
      match strip_prefix u s with
      | Some r => Some r
      | None => first_unit units' s
      end
  end.

(** Modelled from the spec: the known prefix sequences of section 6, each
    four display columns wide (the fixed indentation unit): plain-space
    indentation and the vertical-bar continuation, then the tee and corner
    connectors with their ASCII equivalents.  The table is missing from
    the sources. *)
Definition indent_units : list string := ["    "; "│   "; "|   "].
Definition connector_units : list string := ["├── "; "└── "; "|-- "; "`-- "].

(** Modelled from the spec: the connector glyphs of the glossary and of
    section 6; a name cannot start with one. *)
Definition glyphs : list string := ["│"; "├"; "└"; "─"; "|"; "`"; "-"].

(** Modelled from the spec: the path separator that marks directories
    (section 6). *)
Definition path_separator : ascii := "/".

(** *** Line Classifier (specification 4.1) *)

(** Modelled from the spec: the explicit kind hint of section 4.1. *)
Inductive Hint : Type := HintDirectory | Unset.

(** Modelled from the spec: what [classify] returns for a line (depth,
    name remnant, hint), with the number of the line for diagnostics. *)
Record Line : Type := mkLine {
  l_no : nat;
  l_depth : Z;
  l_name : string;
  l_hint : Hint
}.

(** Modelled from the spec: strips indentation units from the front of
    [s], counting them in [k]; [fuel] bounds the number of units (the
    length of [s] is enough). *)
Fixpoint strip_indent (fuel : nat) (s : string) (k : nat) : nat * string :=
  match fuel with
  | O => (k, s)
  | S fuel' =>
      match first_unit indent_units s with
      | Some r => strip_indent fuel' r (S k)
      | None => (k, s)
      end
  end.

(** Modelled from the spec: at most one connector follows the
    indentation. *)
Definition strip_connector (ks : nat * string) : nat * string :=
  match first_unit connector_units (snd ks) with
  | Some r => (S (fst ks), r)
  | None => ks
  end.

(** Modelled from the spec: the name remnant ends with a path
    separator. *)
Fixpoint ends_with_sep (s : string) : bool :=
  match s with
  | EmptyString => false
  | String c EmptyString => Ascii.eqb c path_separator
  | String _ rest => ends_with_sep rest
  end.

(** Modelled from the spec: a name remnant that still starts with a
    blank or a connector glyph could not be separated into indentation
    and name. *)
Definition malformed_start (s : string) : bool :=
  match s with
  | EmptyString => false
  | String c _ =>
      is_space c
      || match first_unit glyphs s with Some _ => true | None => false end
  end.

(** Modelled from the spec: [classify(raw_line) -> (depth, name,
    explicit_kind_hint)] of section 4.1, missing from the sources.  The
    stripped prefix is a run of four-column units, so the depth (stripped
    width over the unit) is their number.  Fails on an empty name remnant
    and on a remnant that cannot be separated from its indentation. *)
Definition classify (no : nat) (raw_line : string) : result Line :=
  let (k, rest) := strip_connector (strip_indent (String.length raw_line) raw_line 0) in
  if (rest =? "") then raise "empty name" no
  else if malformed_start rest then raise "malformed indentation or connector" no
  else inr (mkLine no (Z.of_nat k) rest
                   (if ends_with_sep rest then HintDirectory else Unset)).

(** *** Normalization Pass (specification 4.4) *)

(** Modelled from the spec: drops exactly one trailing path separator,
    if there is one. *)
Fixpoint strip_trailing_sep (s : string) : string :=
  match s with
  | EmptyString => EmptyString
  | String c EmptyString =>
      if Ascii.eqb c path_separator then EmptyString else s
  | String c rest => String c (strip_trailing_sep rest)
  end.

(** Modelled from the spec: the name holds a path separator. *)
Fixpoint contains_sep (s : string) : bool :=
  match s with
  | EmptyString => false
  | String c rest => Ascii.eqb c path_separator || contains_sep rest
  end.

(** Modelled from the spec: the name part of the normalization pass of
    section 4.4, missing from the sources: one trailing separator is
    stripped, and the name that remains must be a single non-empty path
    segment. *)
Definition normalize_name (l : Line) : result string :=
  let n := strip_trailing_sep (l_name l) in
  if (n =? "") then raise "empty name" (l_no l)
  else if contains_sep n then raise "name is not a single path segment" (l_no l)
  else inr n.

Section Builder.

(** Modelled from the spec: the context-specific heuristic of section 3
    that may tag a childless node without a trailing separator as a
    directory (for instance a name without extension).  The specification
    leaves it open, so the builder takes it as a parameter. *)
Variable context_heuristic : string -> bool.

(** *** Tree Builder (specification 4.2) *)

(** Modelled from the spec: an entry of the ancestor stack of section
    4.2, the depth of a line and the node it opened.  The node is kept
    open: [f_dir] records that the hint or the heuristic make it a
    directory, [f_children] the children attached so far, in source
    order. *)
Record Frame : Type := mkFrame {
  f_depth : Z;
  f_name : string;
  f_dir : bool;
  f_children : list Node
}.

(** Modelled from the spec: the kind part of the normalization pass: a
    node with one or more children is a directory unconditionally; a
    childless one is a directory by its hint or by the heuristic, a file
    otherwise.  Missing from the sources. *)
Definition resolve_kind (dir : bool) (cs : list Node) : Kind :=
  match cs with
  | _ :: _ => Directory
  | [] => if dir then Directory else File
  end.

(** Modelled from the spec: the node of an entry that leaves the
    stack. *)
Definition close (f : Frame) : Node :=
  mkNode (f_name f) (resolve_kind (f_dir f) (f_children f)) (f_children f).

(** Modelled from the spec: appends [n] to the children of the node of
    [f] (step 4c). *)
Definition attach (n : Node) (f : Frame) : Frame :=
  mkFrame (f_depth f) (f_name f) (f_dir f) (f_children f ++ [n]).

(** Modelled from the spec: the ancestor chain of step 3: its top entry
    and the entries below it, the root at the bottom. *)
Definition Stack : Type := (Frame * list Frame)%type.

(** Modelled from the spec: step 4a: pops while the depth of the top
    entry is at least [d]; the node of a popped entry is complete and
    stays in the children of the entry below.  [None] when the stack runs
    empty. *)
Fixpoint pop_while (d : Z) (top : Frame) (below : list Frame) : option Stack :=
  if (f_depth top <? d)%Z then Some (top, below)
  else match below with
       | [] => None
       | g :: below' => pop_while d (attach (close top) g) below'
       end.

(** Modelled from the spec: step 4c, the new entry for a line: its
    normalized name and its kind as far as the line decides it. *)
Definition open_frame (l : Line) : result Frame :=
  match normalize_name l with
  | inl e => inl e
  | inr n =>
      inr (mkFrame (l_depth l) n
             (match l_hint l with HintDirectory => true | Unset => false end
              || context_heuristic n) [])
  end.

(** Modelled from the spec: steps 4a to 4c of section 4.2 for one
    classified line; missing from the sources. *)
Definition add_line (st : Stack) (l : Line) : result Stack :=
  match pop_while (l_depth l) (fst st) (snd st) with
  | None => raise "indentation shallower than the root" (l_no l)
  | Some (top, below) =>
      if (f_depth top + 1 <? l_depth l)%Z
      then raise "indentation jump skips a nesting level" (l_no l)
      else match open_frame l with
           | inl e => inl e
           | inr f => inr (f, top :: below)
           end
  end.

(** Modelled from the spec: step 4 over the lines that follow; the first
    failure aborts the build. *)
Fixpoint add_lines (st : Stack) (ls : list Line) : result Stack :=
  match ls with
  | [] => inr st
  | l :: ls' =>
      match add_line st l with
      | inl e => inl e
      | inr st' => add_lines st' ls'
      end
  end.

(** Modelled from the spec: the bottom entry once the input is exhausted
    and every entry above it is closed into the entry below it. *)
Fixpoint collapse (top : Frame) (below : list Frame) : Frame :=
  match below with
  | [] => top
  | g :: below' => collapse (attach (close top) g) below'
  end.

(** Modelled from the spec: the root node of step 5. *)
Definition close_all (top : Frame) (below : list Frame) : Node :=
  close (collapse top below).

(** Modelled from the spec: the invisible root of a multi-root input
    (step 2), one level above depth 0. *)
Definition synthetic_root : Frame := mkFrame (-1) "" true [].

(** Modelled from the spec: a depth-0 line. *)
Definition is_depth0 (l : Line) : bool := (l_depth l =? 0)%Z.

(** Modelled from the spec: steps 2 to 5 of section 4.2 on the classified
    lines: with two or more depth-0 lines every line is built under the
    invisible root and the root name is empty; otherwise the first line,
    at depth 0, is the root and gives the root name. *)
Definition build_lines (ls : list Line) : result (Node * string) :=
  if (2 <=? List.length (filter is_depth0 ls))%nat then
    match add_lines (synthetic_root, []) ls with
    | inl e => inl e
    | inr (top, below) => inr (close_all top below, "")
    end
  else
    match ls with
    | [] => inl (mkTreeParseError "no root line" None)
    | first :: rest =>
        if is_depth0 first then
          match open_frame first with
          | inl e => inl e
          | inr f =>
              match add_lines (f, []) rest with
              | inl e => inl e
              | inr (top, below) => inr (close_all top below, f_name f)
              end
          end
        else raise "first line is indented" (l_no first)
    end.

(** Modelled from the spec: the raw lines with their 1-based line
    numbers. *)
Definition numbered (raw_lines : list string) : list (nat * string) :=
  combine (seq 1 (List.length raw_lines)) raw_lines.

(** Modelled from the spec: classifies every line, stopping at the first
    that fails. *)
Fixpoint classify_all (nls : list (nat * string)) : result (list Line) :=
  match nls with
  | [] => inr []
  | (no, raw) :: nls' =>
      match classify no raw with
      | inl e => inl e
      | inr l =>
          match classify_all nls' with
          | inl e => inl e
          | inr ls => inr (l :: ls)
          end
      end
  end.

(** Modelled from the spec: step 1 and the classifier: the classified
    non-blank lines. *)
Definition classified (raw_lines : list string) : result (list Line) :=
  classify_all (filter (fun nl => negb (is_blank (snd nl))) (numbered raw_lines)).

(** Modelled from the spec: [build(sequence_of_raw_lines) -> (Node root,
    string root_name)] of section 4.2, missing from the sources. *)
Definition build (raw_lines : list string) : result (Node * string) :=
  match classified raw_lines with
  | inl e => inl e
  | inr ls => build_lines ls
  end.

(** Modelled from the spec: [build_tree(path_or_text) -> (Node, string)]
    of section 6 on the text of the tree file, missing from the sources. *)
Definition build_tree (text : string) : result (Node * string) :=
  build (split LF text).

End Builder.

(** *** Notions the properties of the parser are stated with *)

(** The name a line gives its node. *)
Definition node_name (l : Line) : string := strip_trailing_sep (l_name l).

(** The depth and the name a line gives its node. *)
Definition entry (l : Line) : Z * string := (l_depth l, node_name l).

(** The nearest entry of [ds] that is shallower than [d]. *)
Definition shallower (d : Z) (ds : list Z) : option Z :=
  find (fun x => (x <? d)%Z) ds.

(** [skips_from above ls]: some line of [ls] is more than one level deeper
    than the nearest line before it that is shallower than it; [above]
    holds the depths of the lines before [ls], nearest first. *)
Fixpoint skips_from (above : list Z) (ls : list Line) : bool :=
  match ls with
  | [] => false
  | l :: ls' =>
      match shallower (l_depth l) above with
      | Some d' => (d' + 1 <? l_depth l)%Z
      | None => false
      end
      || skips_from (l_depth l :: above) ls'
  end.

Definition skips_level (ls : list Line) : bool := skips_from [] ls.

(** Well-formed classified lines: the first line stands at depth 0, every
    name is a single non-empty path segment, and no line skips a level. *)
Definition well_formed (ls : list Line) : Prop :=
  match ls with
  | [] => False
  | first :: _ => l_depth first = 0%Z
  end
  /\ Forall (fun l => exists n, normalize_name l = inr n) ls
  /\ skips_level ls = false.

(** Modelled from the spec: the indentation of a line at depth [d] in the
    re-serialization of section 8, four spaces per level (plain-space
    indentation, one of the glyph styles the classifier reads). *)
Fixpoint indentation (d : nat) : string :=
  match d with
  | O => ""
  | S d' => "    " ++ indentation d'
  end.

(** Modelled from the spec: the name of a node as a line shows it, with
    the trailing separator that marks a directory. *)
Definition render (nm : string) (k : Kind) : string :=
  match k with
  | Directory => nm ++ "/"
  | File => nm
  end.

(** Modelled from the spec: the re-serialization into indented text of
    section 8, for which the sources have no code: one line per node in
    pre-order. *)
Fixpoint serialize_node (d : nat) (n : Node) : list string :=
  match n with
  | mkNode nm k cs =>
      (indentation d ++ render nm k)%string :: flat_map (serialize_node (S d)) cs
  end.

(** Modelled from the spec: the lines of a tree; the invisible root of a
    multi-root tree has no line, its children stand at depth 0. *)
Definition serialize_lines (root : Node) : list string :=
  if name root =? "" then flat_map (serialize_node 0) (children root)
  else serialize_node 0 root.

(** Modelled from the spec: the indented text of a tree. *)
Definition serialize (root : Node) : string :=
  String.concat nl (serialize_lines root).

(** The positions of the nodes that stand for source lines: all of them,
    but for the invisible root of a multi-root tree. *)
Definition line_positions (root : Node) : list Pos :=
  if name root =? "" then tl (preorder root) else preorder root.

(** The depth and the name of the node at position [p] of [n], the root
    of [n] standing at depth [d]. *)
Definition entry_at (d : Z) (n : Node) (p : Pos) : option (Z * string) :=
  match subtree_at p n with
  | Some m => Some ((d + Z.of_nat (List.length p))%Z, name m)
  | None => None
  end.

(** The same with the depth counted like the depth of source lines: the
    children of an invisible root stand at depth 0. *)
Definition node_entry (root : Node) (p : Pos) : option (Z * string) :=
  entry_at (if (name root =? "")%string then (-1)%Z else 0%Z) root p.

(** *** Invariants of the ancestor stack *)

(** [P] holds of every node of the tree [n]. *)
Definition all_nodes (P : Node -> Prop) (n : Node) : Prop := Forall P (nodes n).

(** Every node attached so far satisfies [P], and every entry that has an
    entry below it satisfies [Q]. *)
Fixpoint stack_inv (P : Node -> Prop) (Q : Frame -> Prop)
    (top : Frame) (below : list Frame) : Prop :=
  Forall (all_nodes P) (f_children top)
  /\ match below with
     | [] => True
     | g :: below' => Q top /\ stack_inv P Q g below'
     end.

(** Each entry stands exactly one level below the entry above it. *)
Fixpoint consecutive (top : Frame) (below : list Frame) : Prop :=
  match below with
  | [] => True
  | g :: below' => f_depth top = (f_depth g + 1)%Z /\ consecutive g below'
  end.

(** The depths of the entries, top first. *)
Definition stack_depths (top : Frame) (below : list Frame) : list Z :=
  map f_depth (top :: below).

(** The stack answers the searches for a shallower depth like the list
    [above] of the depths seen so far. *)
Definition tracks (st : Stack) (above : list Z) : Prop :=
  forall d, shallower d (stack_depths (fst st) (snd st)) = shallower d above.

(** The pre-order listing of the tree the stack stands for. *)
Definition flat_frame (f : Frame) : list (Z * string) :=
  flat_node (f_depth f) (close f).

Fixpoint contains_lf (s : string) : bool :=
  match s with
  | EmptyString => false
  | String c rest => Ascii.eqb c LF || contains_lf rest
  end.

(** The names the parser gives to nodes: single non-empty path segments
    on one line that the classifier does not take for indentation. *)
Definition good_name (nm : string) : Prop :=
  nm <> "" /\ contains_sep nm = false /\ malformed_start nm = false
  /\ contains_lf nm = false.

(** A node as the parser makes it under the heuristic [h]: a file has no
    children and is not a directory by the heuristic. *)
Definition made_node (h : string -> bool) (n : Node) : Prop :=
  good_name (name n)
  /\ (kind n = File -> children n = [] /\ h (name n) = false).

Definition made_frame (h : string -> bool) (f : Frame) : Prop :=
  good_name (f_name f) /\ (h (f_name f) = true -> f_dir f = true).

(** The two ways [build_lines] returns. *)
Inductive built (h : string -> bool) (ls : list Line) (root : Node) (rn : string) : Prop :=
| built_multi (st : Stack) :
    (2 <= List.length (filter is_depth0 ls))%nat ->
    add_lines h (synthetic_root, []) ls = inr st ->
    root = close (collapse (fst st) (snd st)) ->
    rn = "" ->
    built h ls root rn
| built_single (first : Line) (rest : list Line) (f : Frame) (st : Stack) :
    (List.length (filter is_depth0 ls) < 2)%nat ->
    ls = first :: rest ->
    is_depth0 first = true ->
    open_frame h first = inr f ->
    add_lines h (f, []) rest = inr st ->
    root = close (collapse (fst st) (snd st)) ->
    rn = f_name f ->
    built h ls root rn.

(** The entry [f] with the nodes [cs] appended to its children. *)
Definition attach_all (cs : list Node) (f : Frame) : Frame :=
  mkFrame (f_depth f) (f_name f) (f_dir f) (f_children f ++ cs).

(** [raw] classifies as [l], whatever its line number. *)
Definition classifies (raw : string) (l : Line) : Prop :=
  exists no, classify no raw = inr l.

(** What the classifier guarantees of the name remnant of a line of a
    text. *)
Definition line_ok (l : Line) : Prop :=
  malformed_start (l_name l) = false /\ contains_lf (l_name l) = false.

(** The hint the rendering of a node of kind [k] carries. *)
Definition hint_of (k : Kind) : Hint :=
  match k with Directory => HintDirectory | File => Unset end.

(** A raw line the parser keeps and classifies. *)
Definition raw_ok (raw : string) : Prop :=
  is_blank raw = false /\ contains_lf raw = false.

(** The entry the line of a node named [nm] of kind [k] opens at depth
    [d]. *)
Definition rendered_frame (h : string -> bool) (d : Z) (nm : string)
    (k : Kind) : Frame :=
  mkFrame d nm
    (match hint_of k with HintDirectory => true | Unset => false end || h nm)
    [].

(** The lines of [n] rebuild [n]: from a stack that pops to [top] at the
    depth of [n], the lines classified from the rendering of [n] leave a
    stack that pops to [top] with [n] attached. *)
Definition rebuilds (h : string -> bool) (n : Node) : Prop :=
  forall (d : nat) (ls : list Line) (st : Stack) (top : Frame)
         (below : list Frame),
    Forall2 classifies (serialize_node d n) ls ->
    pop_while (Z.of_nat d) (fst st) (snd st) = Some (top, below) ->
    (f_depth top + 1)%Z = Z.of_nat d ->
    exists st',
      add_lines h st ls = inr st'
      /\ pop_while (Z.of_nat d) (fst st') (snd st')
         = Some (attach n top, below).

(** The children rule alone. *)
Definition children_rule (n : Node) : Prop :=
  children n <> [] -> kind n = Directory.

End TreeParser.

(* ===================================================================== *)
(** ** Sample runs *)
(* ===================================================================== *)

Module Samples.
Import Cli.

(** No context heuristic: a childless node is a directory only by its
    trailing separator. *)
Definition no_heuristic (n : string) : bool := false.

(** Tree files: a single root, two roots, a skipped nesting level. *)
Definition files : list (string * string) :=
  [ ("tree.txt", ("project/" ++ nl ++ "├── README.md" ++ nl ++ "├── src/"
                    ++ nl ++ "│   └── main.py" ++ nl)%string);
    ("multi.txt", ("a/" ++ nl ++ "b/")%string);
    ("jump.txt", ("a/" ++ nl ++ "        b.txt")%string) ].

Definition project_tree : Node :=
  mkNode "project" Directory
    [ mkNode "README.md" File [];
      mkNode "src" Directory [ mkNode "main.py" File [] ] ].

Definition multi_tree : Node :=
  mkNode "" Directory [ mkNode "a" Directory []; mkNode "b" Directory [] ].

(** A world where the builder never fails, the text backend parses the
    files above and the JSON backend answers with [project_tree]. *)
Definition world (cwd : string) : World :=
  mkWorld
    (fun _ => inr (project_tree, "project"))
    (backend_of_files files (TreeParser.build_tree no_heuristic))
    (inr cwd)
    (fun p => p)
    (fun bp dry v => inr (mkBuilder bp dry v))
    (fun _ _ _ => inr tt)
    (fun _ => inr tt).

Definition args_default (file base : string) : Args :=
  mkArgs file txt base false false false.

End Samples.

(* ===================================================================== *)
(** ** Notions the further properties of the driver are stated with *)
(* ===================================================================== *)

Module CliRun.
Import Cli.

(** The line a run that is not dry prints last (line 115). *)
Definition success_message : string :=
  (nl ++ "✅ Structure created successfully!")%string.

(** The progress line of the text backend (line 87). *)
Definition parsing_message (args : Args) : string :=
  ("📖 Parsing tree file: " ++ tree_file args)%string.

(** The progress lines of lines 99 and 103. *)
Definition skipping_message (root_name : string) : string :=
  ("⏭️  Skipping root folder '" ++ root_name ++ "' (already in it)")%string.

Definition building_message (w : World) (base_path : string) : string :=
  ("🏗️  Building structure in: " ++ Path_absolute w base_path ++ nl)%string.

Definition is_stdout (ev : Event) : bool :=
  match ev with EvStdout _ => true | _ => false end.

Definition is_stderr (ev : Event) : bool :=
  match ev with EvStderr _ => true | _ => false end.

(** The calls to the collaborators of [main]: the parsers, [Path.cwd] and
    the filesystem builder. *)
Definition is_collaborator (ev : Event) : bool :=
  match ev with
  | EvJsonBuildTree _ | EvTreeBuildTree _ | EvCwd
  | EvNewBuilder _ | EvBuild _ _ | EvPrintSummary => true
  | _ => false
  end.


(** The test of line 90: [args.base_dir in [".", ""]]. *)
Definition uses_cwd (args : Args) : bool :=
  (base_dir args =? ".") || (base_dir args =? "").

(** Lines 90-93 as a value: the working directory or the given one. *)
Definition base_path_of (w : World) (args : Args) : PyExc + string :=
  if uses_cwd args then Path_cwd w else inr (base_dir args).

(** The events of lines 81-89, of lines 90-93 and of lines 98-103. *)
Definition parse_events (args : Args) : list Event :=
  (if Format_is_json (format args) then []
   else if verbose args then [EvStdout (parsing_message args)] else [])
  ++ [selected_call args].

Definition cwd_events (args : Args) : list Event :=
  if uses_cwd args then [EvCwd] else [].

Definition announce_events (w : World) (args : Args)
    (base_path root_name : string) : list Event :=
  (if should_skip_root args base_path root_name && verbose args
   then [EvStdout (skipping_message root_name)] else [])
  ++ (if verbose args then [EvStdout (building_message w base_path)] else []).

(** The events of a run up to the construction of the builder. *)
Definition events_to_builder (w : World) (args : Args)
    (base_path root_name : string) : list Event :=
  parse_events args ++ cwd_events args
  ++ announce_events w args base_path root_name
  ++ [EvNewBuilder (mkBuilder base_path (dry_run args) (verbose args))].

(** The first exception a collaborator raises in the order the [try] body
    calls them, [None] when every call returns. *)
Definition first_failure (w : World) (args : Args) : option PyExc :=
  match selected_build_tree w args with
  | inl e => Some e
  | inr (root, root_name) =>
      match base_path_of w args with
      | inl e => Some e
      | inr base_path =>
          match FilesystemBuilder_init w base_path (dry_run args) (verbose args) with
          | inl e => Some e
          | inr builder =>
              match FilesystemBuilder_build w builder root
                      (should_skip_root args base_path root_name) with
              | inl e => Some e
              | inr _ =>
                  match FilesystemBuilder_print_summary w builder with
                  | inl e => Some e
                  | inr _ => None
                  end
              end
          end
      end
  end.

(** A run of [main] by the call that fails first: the events before the
    handler and the exception, or the events and the exit code of a run
    in which every call returns. *)
Definition stages_of_run (w : World) (args : Args)
  : list Event * option PyExc :=
  match selected_build_tree w args with
  | inl e => (parse_events args, Some e)
  | inr (root, root_name) =>
      match base_path_of w args with
      | inl e => (parse_events args ++ cwd_events args, Some e)
      | inr base_path =>
          let skip := should_skip_root args base_path root_name in
          let pre := events_to_builder w args base_path root_name in
          match FilesystemBuilder_init w base_path (dry_run args) (verbose args) with
          | inl e => (pre, Some e)
          | inr builder =>
              match FilesystemBuilder_build w builder root skip with
              | inl e => (pre ++ [EvBuild root skip], Some e)
              | inr _ =>
                  match FilesystemBuilder_print_summary w builder with
                  | inl e => (pre ++ [EvBuild root skip; EvPrintSummary], Some e)
                  | inr _ =>
                      (pre ++ [EvBuild root skip; EvPrintSummary]
                         ++ (if dry_run args then []
                             else [EvStdout success_message]),
                       None)
                  end
              end
          end
      end
  end.

(** The place of a collaborator call in the order of the [try] body:
    parser, [Path.cwd], construction of the builder, [build],
    [print_summary]. *)
Definition stage_of (ev : Event) : nat :=
  match ev with
  | EvJsonBuildTree _ | EvTreeBuildTree _ => 0
  | EvCwd => 1
  | EvNewBuilder _ => 2
  | EvBuild _ _ => 3
  | EvPrintSummary => 4
  | _ => 5
  end.

(** The stages of the collaborator calls of a trace, in order. *)
Definition stages (t : list Event) : list nat :=
  map stage_of (filter is_collaborator t).

(** Each number of the list is smaller than the next. *)
Fixpoint increasing (l : list nat) : bool :=
  match l with
  | [] => true
  | x :: l' =>
      match l' with
      | [] => true
      | y :: _ => (x <? y)%nat && increasing l'
      end
  end.

(** [c] occurs in [s]. *)
Fixpoint has_char (c : ascii) (s : string) : bool :=
  match s with
  | EmptyString => false
  | String x rest => Ascii.eqb x c || has_char c rest
  end.

(** [s.startswith(p)]. *)
Fixpoint startswith (p s : string) : bool :=
  match p with
  | EmptyString => true
  | String a p' =>
      match s with
      | EmptyString => false
      | String b s' => Ascii.eqb a b && startswith p' s'
      end
  end.

(** A line of stdout that starts as the progress line of line 87 does. *)
Definition is_parsing_line (ev : Event) : bool :=
  match ev with
  | EvStdout s => startswith "📖 Parsing tree file: " s
  | _ => false
  end.

(** A world whose collaborators answer the same whatever they are asked:
    both backends with [parsed], [Path.cwd] with [cwd], [build] with
    [built] and [print_summary] with [summary]; the constructor of the
    builder returns. *)
Definition world_of (parsed : PyExc + (Node * string)) (cwd : PyExc + string)
    (built summary : PyExc + unit) : World :=
  mkWorld
    (fun _ => parsed)
    (fun _ => parsed)
    cwd
    (fun p => p)
    (fun bp dry v => inr (mkBuilder bp dry v))
    (fun _ _ _ => built)
    (fun _ => summary).

(** A tree of one directory with one file, and the answer of a backend
    that read it. *)
Definition small_tree : Node :=
  mkNode "project" Directory [ mkNode "README.md" File [] ].

Definition parsed_small : PyExc + (Node * string) :=
  inr (small_tree, "project").

End CliRun.

(* ===================================================================== *)
(** * Theorems about the driver *)
(* ===================================================================== *)

Section CliFacts.
Import Cli.

Lemma string_eqb_true (a b : string) : (a =? b) = true <-> a = b.
Proof. apply String.eqb_eq. Qed.

Lemma string_eqb_false (a b : string) : (a =? b) = false <-> a <> b.
Proof. apply String.eqb_neq. Qed.

(** The skip decision of lines 95-97, read as a proposition. *)
Lemma should_skip_root_iff (args : Args) (bp rn : string) :
  should_skip_root args bp rn = true
  <-> no_skip_root args = false /\ rn <> "" /\ Path_name bp = rn.
Proof.
  unfold should_skip_root.
  rewrite !andb_true_iff, !negb_true_iff, string_eqb_true, string_eqb_false.
  tauto.
Qed.

Lemma trace_bind_raise {A B : Type} (m : M A) (k : A -> M B) (e : PyExc) :
  outcome m = inl e ->
  trace (bind m k) = trace m /\ outcome (bind m k) = inl e.
Proof.
  destruct m as [t [e' | a']]; simpl; intros H; [|discriminate].
  injection H as ->. auto.
Qed.

Lemma build_calls_app (t u : list Event) :
  build_calls (t ++ u) = build_calls t ++ build_calls u.
Proof.
  induction t as [|ev t IH]; simpl; [reflexivity|].
  destruct ev; simpl; rewrite ?IH; reflexivity.
Qed.

(** The events of the backend selection: at most a progress line, then the
    one call. *)
Lemma parse_trace (w : World) (args : Args) :
  outcome (parse w args) = selected_build_tree w args
  /\ filter is_parser_call (trace (parse w args)) = [selected_call args]
  /\ filter is_builder_event (trace (parse w args)) = []
  /\ build_calls (trace (parse w args)) = [].
Proof.
  unfold parse, selected_build_tree, selected_call.
  destruct (format args); simpl.
  - destruct (verbose args); simpl;
      destruct (TreeParser_build_tree w (tree_file args)); simpl; auto.
  - auto.
Qed.

Lemma resolve_base_path_trace (w : World) (args : Args) :
  filter is_parser_call (trace (resolve_base_path w args)) = []
  /\ filter is_builder_event (trace (resolve_base_path w args)) = []
  /\ build_calls (trace (resolve_base_path w args)) = [].
Proof.
  unfold resolve_base_path.
  destruct ((base_dir args =? ".") || (base_dir args =? "")); simpl; auto.
Qed.

End CliFacts.

Section CliRuns.
Import Cli.

(** The handlers print to stderr (and a traceback) only. *)
Lemma handle_trace (args : Args) (e : PyExc) :
  filter is_parser_call (trace (handle args e)) = []
  /\ filter is_builder_event (trace (handle args e)) = []
  /\ build_calls (trace (handle args e)) = [].
Proof.
  destruct e; simpl; auto; destruct (verbose args); simpl; auto.
Qed.

Lemma main_returns (w : World) (args : Args) (code : Z) :
  outcome (try_body w args) = inr code ->
  main w args = (trace (try_body w args), inr code).
Proof.
  unfold main. destruct (try_body w args) as [t [e | c]]; simpl;
    intros H; [discriminate | injection H as ->; reflexivity].
Qed.

Lemma main_handles (w : World) (args : Args) (e : PyExc) :
  outcome (try_body w args) = inl e ->
  trace (main w args) = trace (try_body w args) ++ trace (handle args e)
  /\ outcome (main w args) = outcome (handle args e).
Proof.
  unfold main. destruct (try_body w args) as [t [e' | c]]; simpl;
    intros H; [injection H as -> | discriminate].
  destruct (handle args e) as [t' r]; simpl; auto.
Qed.

(** The progress lines never raise and touch no collaborator. *)
Lemma announce_trace (w : World) (args : Args) (bp rn : string) (skip : bool) :
  outcome (announce w args bp rn skip) = inr tt
  /\ filter is_parser_call (trace (announce w args bp rn skip)) = []
  /\ build_calls (trace (announce w args bp rn skip)) = [].
Proof.
  unfold announce. destruct skip, (verbose args); cbn; auto.
Qed.

Lemma build_and_report_trace (w : World) (args : Args) (b : Builder)
    (root : Node) (skip : bool) :
  filter is_parser_call (trace (build_and_report w args b root skip)) = []
  /\ build_calls (trace (build_and_report w args b root skip)) = [(root, skip)].
Proof.
  unfold build_and_report.
  destruct (FilesystemBuilder_build w b root skip) as [e | []]; cbn; auto.
  destruct (FilesystemBuilder_print_summary w b) as [e | []]; cbn; auto.
  destruct (dry_run args); cbn; auto.
Qed.

Lemma build_and_report_ok (w : World) (args : Args) (b : Builder)
    (root : Node) (skip : bool) :
  FilesystemBuilder_build w b root skip = inr tt ->
  FilesystemBuilder_print_summary w b = inr tt ->
  outcome (build_and_report w args b root skip) = inr 0%Z.
Proof.
  unfold build_and_report. intros -> ->. cbn.
  destruct (dry_run args); reflexivity.
Qed.

(** The [try] body of a run in which the backend returned, the base path
    was resolved and the builder was constructed. *)
Lemma try_body_run (w : World) (args : Args) (root : Node)
    (rn bp : string) (b : Builder) :
  selected_build_tree w args = inr (root, rn) ->
  outcome (resolve_base_path w args) = inr bp ->
  FilesystemBuilder_init w bp (dry_run args) (verbose args) = inr b ->
  trace (try_body w args)
  = trace (parse w args) ++ trace (resolve_base_path w args)
    ++ trace (announce w args bp rn (should_skip_root args bp rn))
    ++ EvNewBuilder (mkBuilder bp (dry_run args) (verbose args))
    :: trace (build_and_report w args b root (should_skip_root args bp rn))
  /\ outcome (try_body w args)
     = outcome (build_and_report w args b root (should_skip_root args bp rn)).
Proof.
  intros Hsel Hbase Hinit.
  destruct (parse_trace w args) as (Ho & _). rewrite Hsel in Ho.
  unfold try_body.
  destruct (parse w args) as [tp [e | [r n]]]; cbn in Ho; [discriminate|].
  injection Ho as -> ->. cbn [bind].
  destruct (resolve_base_path w args) as [tb [e | bp']]; cbn in Hbase;
    [discriminate|]. injection Hbase as ->. cbn [bind].
  destruct (announce_trace w args bp rn (should_skip_root args bp rn))
    as (Han & _).
  destruct (announce w args bp rn (should_skip_root args bp rn))
    as [tn [e | []]]; cbn in Han; [discriminate|]. cbn [bind call].
  rewrite Hinit.
  destruct (build_and_report w args b root (should_skip_root args bp rn))
    as [ta ra].
  cbn. auto.
Qed.

(** In such a run the selected backend is the only parser called, and the
    builder is invoked once, on the returned root with the skip decision
    taken from the returned root name. *)
Lemma main_run (w : World) (args : Args) (root : Node)
    (rn bp : string) (b : Builder) :
  selected_build_tree w args = inr (root, rn) ->
  outcome (resolve_base_path w args) = inr bp ->
  FilesystemBuilder_init w bp (dry_run args) (verbose args) = inr b ->
  filter is_parser_call (trace (main w args)) = [selected_call args]
  /\ build_calls (trace (main w args)) = [(root, should_skip_root args bp rn)].
Proof.
  intros Hsel Hbase Hinit.
  destruct (try_body_run w args root rn bp b Hsel Hbase Hinit) as (Ht & Ho).
  destruct (parse_trace w args) as (_ & Hpp & _ & Hpb).
  destruct (resolve_base_path_trace w args) as (Hrp & _ & Hrb).
  destruct (announce_trace w args bp rn (should_skip_root args bp rn))
    as (_ & Hnp & Hnb).
  destruct (build_and_report_trace w args b root (should_skip_root args bp rn))
    as (Hap & Hab).
  assert (Hbody :
    filter is_parser_call (trace (try_body w args)) = [selected_call args]
    /\ build_calls (trace (try_body w args))
       = [(root, should_skip_root args bp rn)]).
  { rewrite Ht, !filter_app, !build_calls_app, Hpp, Hpb, Hrp, Hrb, Hnp, Hnb.
    cbn [filter is_parser_call build_calls app]. rewrite Hap, Hab. auto. }
  destruct Hbody as (H1 & H2).
  destruct (outcome (try_body w args)) as [e | c] eqn:Hout.
  - destruct (main_handles w args e Hout) as (-> & _).
    destruct (handle_trace args e) as (Hhp & _ & Hhb).
    rewrite filter_app, build_calls_app, H1, H2, Hhp, Hhb. auto.
  - rewrite (main_returns w args c Hout). cbn. auto.
Qed.

(** A run in which the selected backend raises: the [try] body stops at
    the call. *)
Lemma try_body_parse_raises (w : World) (args : Args) (e : PyExc) :
  selected_build_tree w args = inl e ->
  trace (try_body w args) = trace (parse w args)
  /\ outcome (try_body w args) = inl e.
Proof.
  intros Hsel. destruct (parse_trace w args) as (Ho & _). rewrite Hsel in Ho.
  unfold try_body. apply trace_bind_raise. exact Ho.
Qed.

End CliRuns.

(* ===================================================================== *)
(** ** Claims about the driver *)
(* ===================================================================== *)

Section CliClaims.
Import Cli Samples.

(** The comparison of line 96 on the examples of the specification: equal
    names skip, names that differ in case do not. *)
Example should_skip_root_examples :
  should_skip_root (args_default "tree.txt" ".") "/home/u/project" "project"
  = true
  /\ should_skip_root (args_default "tree.txt" ".") "/home/u/Project" "project"
     = false
  /\ should_skip_root (args_default "tree.txt" ".") "/home/u/project" "Project"
     = false.
Proof. repeat split. Qed.

(** C1, as stated, fails: the comparison of the names is not the whole
    decision.  With the base directory ["/"] (whose final component name
    is empty) and the empty root name of a multi-root file the names are
    equal character for character and the root is not skipped; with
    [--no-skip-root] the names ["project"] and ["project"] are equal and
    the root is not skipped either. *)
Lemma C1_counterexample :
  (Path_name "/" = ""
   /\ selected_build_tree (world "/srv") (args_default "multi.txt" "/")
      = inr (multi_tree, "")
   /\ build_calls (trace (main (world "/srv") (args_default "multi.txt" "/")))
      = [(multi_tree, false)])
  /\ (Path_name "/home/u/project" = "project"
      /\ selected_build_tree (world "/srv")
           (mkArgs "tree.txt" txt "/home/u/project" false false true)
         = inr (project_tree, "project")
      /\ build_calls
           (trace (main (world "/srv")
                     (mkArgs "tree.txt" txt "/home/u/project" false false true)))
         = [(project_tree, false)]).
Proof. vm_compute. repeat split. Qed.

(** C1 (amended): in a run that reaches the builder, [builder.build] is
    invoked once, and with [skip_root=True] exactly when [--no-skip-root]
    is absent, the parsed root name is not empty, and the final component
    name of the base directory equals the root name character for
    character (string equality, hence case-sensitive). *)
Theorem C1_skip_root_decision (w : World) (args : Args) (root : Node)
    (rn bp : string) (b : Builder) :
  selected_build_tree w args = inr (root, rn) ->
  outcome (resolve_base_path w args) = inr bp ->
  FilesystemBuilder_init w bp (dry_run args) (verbose args) = inr b ->
  exists skip : bool,
    build_calls (trace (main w args)) = [(root, skip)]
    /\ (skip = true
        <-> no_skip_root args = false /\ rn <> "" /\ Path_name bp = rn).
Proof.
  intros Hsel Hbase Hinit.
  exists (should_skip_root args bp rn). split.
  - apply (main_run w args root rn bp b Hsel Hbase Hinit).
  - apply should_skip_root_iff.
Qed.

Lemma C1_skip_root_decision_witness :
  exists skip : bool,
    build_calls (trace (main (world "/home/u/project")
                          (args_default "tree.txt" ".")))
    = [(project_tree, skip)]
    /\ (skip = true
        <-> no_skip_root (args_default "tree.txt" ".") = false
            /\ "project" <> "" /\ Path_name "/home/u/project" = "project").
Proof.
  apply (C1_skip_root_decision (world "/home/u/project")
           (args_default "tree.txt" ".") project_tree "project"
           "/home/u/project" (mkBuilder "/home/u/project" false false));
    reflexivity.
Defined.

(** C4: the backend is selected by [args.format] alone: the one parser
    call of a run is [JsonParser.build_tree] on the tree file path for
    [json] and [TreeParser.build_tree] on it for [txt]; and when that call
    returns [(root, root_name)] and the builder is reached, the builder is
    invoked once, with that [root] and with the skip decision computed
    from that [root_name]. *)
Theorem C4_backend_selected_by_format (w : World) (args : Args) :
  filter is_parser_call (trace (main w args))
  = [match format args with
     | json => EvJsonBuildTree (tree_file args)
     | txt => EvTreeBuildTree (tree_file args)
     end]
  /\ forall (root : Node) (rn bp : string) (b : Builder),
      match format args with
      | json => JsonParser_build_tree w (tree_file args)
      | txt => TreeParser_build_tree w (tree_file args)
      end = inr (root, rn) ->
      outcome (resolve_base_path w args) = inr bp ->
      FilesystemBuilder_init w bp (dry_run args) (verbose args) = inr b ->
      build_calls (trace (main w args))
      = [(root, should_skip_root args bp rn)].
Proof.
  split.
  - fold (selected_call args).
    destruct (parse_trace w args) as (Ho & Hpp & _).
    unfold main.
    destruct (try_body w args) as [t r] eqn:Hbody.
    assert (Ht : filter is_parser_call t = [selected_call args]).
    { unfold try_body in Hbody.
      destruct (parse w args) as [tp [e | [root rn]]]; cbn [bind] in Hbody.
      - injection Hbody as <- _. exact Hpp.
      - destruct (resolve_base_path_trace w args) as (Hrp & _).
        destruct (resolve_base_path w args) as [tb [e | bp]];
          cbn [bind] in Hbody.
        + injection Hbody as <- _. rewrite filter_app.
          cbn [trace fst] in Hpp, Hrp. rewrite Hpp, Hrp. reflexivity.
        + destruct (announce_trace w args bp rn (should_skip_root args bp rn))
            as (Han & Hnp & _).
          destruct (announce w args bp rn (should_skip_root args bp rn))
            as [tn [e | []]]; cbn in Han; [discriminate|].
          cbn [bind call] in Hbody.
          destruct (FilesystemBuilder_init w bp (dry_run args) (verbose args))
            as [e | b].
          * injection Hbody as <- _. rewrite !filter_app.
            cbn [trace fst] in Hpp, Hrp, Hnp. rewrite Hpp, Hrp, Hnp.
            reflexivity.
          * destruct (build_and_report_trace w args b root
                        (should_skip_root args bp rn)) as (Hap & _).
            destruct (build_and_report w args b root
                        (should_skip_root args bp rn)) as [ta ra].
            injection Hbody as <- _. rewrite !filter_app.
            cbn [trace fst] in Hpp, Hrp, Hnp, Hap.
            rewrite Hpp, Hrp, Hnp. cbn [filter is_parser_call app].
            rewrite Hap. reflexivity. }
    destruct r as [e | c]; cbn [trace fst].
    + destruct (handle_trace args e) as (Hhp & _).
      destruct (handle args e) as [t' r']. cbn [trace fst] in Hhp |- *.
      rewrite filter_app, Ht, Hhp. reflexivity.
    + exact Ht.
  - intros root rn bp b Hsel Hbase Hinit.
    apply (main_run w args root rn bp b Hsel Hbase Hinit).
Qed.

Lemma C4_backend_selected_by_format_witness :
  build_calls (trace (main (world "/home/u/project")
                        (mkArgs "tree.json" json "." false false false)))
  = [(project_tree, true)]
  /\ build_calls (trace (main (world "/home/u/project")
                           (args_default "multi.txt" ".")))
     = [(multi_tree, false)].
Proof.
  split.
  - apply (proj2 (C4_backend_selected_by_format (world "/home/u/project")
                    (mkArgs "tree.json" json "." false false false))
             project_tree "project" "/home/u/project"
             (mkBuilder "/home/u/project" false false)); reflexivity.
  - apply (proj2 (C4_backend_selected_by_format (world "/home/u/project")
                    (args_default "multi.txt" "."))
             multi_tree "" "/home/u/project"
             (mkBuilder "/home/u/project" false false)); reflexivity.
Defined.

(** C5: when the selected [build_tree] raises [TreeParseError], [main]
    prints the error to stderr right after the parser call and returns 1,
    and neither the construction of the [FilesystemBuilder] nor a call of
    its methods is among the events of the run; and a run in which
    nothing raises returns 0. *)
Theorem C5_parse_error_exit_code (w : World) (args : Args) :
  (forall e : TreeParseError,
      selected_build_tree w args = inl (ExTreeParseError e) ->
      outcome (main w args) = inr 1%Z
      /\ trace (main w args)
         = trace (parse w args) ++ [EvStderr ("❌ Error: " ++ message e)]
      /\ filter is_builder_event (trace (main w args)) = [])
  /\ (forall (root : Node) (rn bp : string) (b : Builder),
      selected_build_tree w args = inr (root, rn) ->
      outcome (resolve_base_path w args) = inr bp ->
      FilesystemBuilder_init w bp (dry_run args) (verbose args) = inr b ->
      FilesystemBuilder_build w b root (should_skip_root args bp rn) = inr tt ->
      FilesystemBuilder_print_summary w b = inr tt ->
      outcome (main w args) = inr 0%Z).
Proof.
  split.
  - intros e Hsel.
    destruct (try_body_parse_raises w args _ Hsel) as (Ht & Ho).
    destruct (main_handles w args _ Ho) as (Hmt & Hmo).
    destruct (parse_trace w args) as (_ & _ & Hpb & _).
    rewrite Hmo, Hmt, Ht. cbn [handle trace outcome fst snd].
    repeat split. rewrite filter_app, Hpb. reflexivity.
  - intros root rn bp b Hsel Hbase Hinit Hbuild Hsum.
    destruct (try_body_run w args root rn bp b Hsel Hbase Hinit) as (_ & Ho).
    rewrite (build_and_report_ok w args b root _ Hbuild Hsum) in Ho.
    rewrite (main_returns w args 0%Z Ho). reflexivity.
Qed.

Lemma C5_parse_error_exit_code_witness :
  (outcome (main (world "/srv") (args_default "jump.txt" "out")) = inr 1%Z
   /\ trace (main (world "/srv") (args_default "jump.txt" "out"))
      = trace (parse (world "/srv") (args_default "jump.txt" "out"))
        ++ [EvStderr ("❌ Error: " ++ "indentation jump skips a nesting level")]
   /\ filter is_builder_event
        (trace (main (world "/srv") (args_default "jump.txt" "out"))) = [])
  /\ outcome (main (world "/srv") (args_default "tree.txt" "out")) = inr 0%Z.
Proof.
  split.
  - apply (proj1 (C5_parse_error_exit_code (world "/srv")
                    (args_default "jump.txt" "out"))
             (mkTreeParseError "indentation jump skips a nesting level"
                (Some 2%nat))).
    reflexivity.
  - apply (proj2 (C5_parse_error_exit_code (world "/srv")
                    (args_default "tree.txt" "out"))
             project_tree "project" "out" (mkBuilder "out" false false));
      reflexivity.
Defined.

(** C9: when the backend returns the empty root name, the builder is
    invoked with [skip_root=False], whatever the base directory: also for
    one whose final component name is empty. *)
Theorem C9_empty_root_name_never_skips (w : World) (args : Args) (root : Node)
    (bp : string) (b : Builder) :
  selected_build_tree w args = inr (root, "") ->
  outcome (resolve_base_path w args) = inr bp ->
  FilesystemBuilder_init w bp (dry_run args) (verbose args) = inr b ->
  build_calls (trace (main w args)) = [(root, false)].
Proof.
  intros Hsel Hbase Hinit.
  destruct (main_run w args root "" bp b Hsel Hbase Hinit) as (_ & H).
  rewrite H. unfold should_skip_root. cbn.
  rewrite andb_false_r. reflexivity.
Qed.

Lemma C9_empty_root_name_never_skips_witness :
  Path_name "/" = ""
  /\ build_calls (trace (main (world "/srv") (args_default "multi.txt" "/")))
     = [(multi_tree, false)].
Proof.
  split; [reflexivity|].
  apply (C9_empty_root_name_never_skips (world "/srv")
           (args_default "multi.txt" "/") multi_tree "/"
           (mkBuilder "/" false false)); reflexivity.
Defined.

(** C10: with [--no-skip-root] the builder is invoked with
    [skip_root=False], also when the root name equals the name of the base
    directory. *)
Theorem C10_no_skip_root_flag (w : World) (args : Args) (root : Node)
    (rn bp : string) (b : Builder) :
  no_skip_root args = true ->
  selected_build_tree w args = inr (root, rn) ->
  outcome (resolve_base_path w args) = inr bp ->
  FilesystemBuilder_init w bp (dry_run args) (verbose args) = inr b ->
  build_calls (trace (main w args)) = [(root, false)].
Proof.
  intros Hflag Hsel Hbase Hinit.
  destruct (main_run w args root rn bp b Hsel Hbase Hinit) as (_ & H).
  rewrite H. unfold should_skip_root. rewrite Hflag. reflexivity.
Qed.

Lemma C10_no_skip_root_flag_witness :
  Path_name "/home/u/project" = "project"
  /\ build_calls
       (trace (main (world "/srv")
                 (mkArgs "tree.txt" txt "/home/u/project" false false true)))
     = [(project_tree, false)].
Proof.
  split; [reflexivity|].
  apply (C10_no_skip_root_flag (world "/srv")
           (mkArgs "tree.txt" txt "/home/u/project" false false true)
           project_tree "project" "/home/u/project"
           (mkBuilder "/home/u/project" false false)); reflexivity.
Defined.

End CliClaims.

(* ===================================================================== *)
(** * Theorems about the tree-text parser *)
(* ===================================================================== *)

(** ** Induction on trees *)

(** Induction on a node with the hypothesis for all of its children. *)
Lemma Node_forall_ind (P : Node -> Prop) :
  (forall nm k cs, Forall P cs -> P (mkNode nm k cs)) ->
  forall n, P n.
Proof.
  intros Hnode.
  fix IH 1. intros [nm k cs]. apply Hnode.
  induction cs as [|c cs IHcs]; constructor; [apply IH | exact IHcs].
Qed.

Lemma nodes_unfold (n : Node) :
  nodes n = n :: flat_map nodes (children n).
Proof. destruct n; reflexivity. Qed.

Lemma flat_node_unfold (d : Z) (n : Node) :
  flat_node d n = (d, name n) :: flat_map (flat_node (d + 1)) (children n).
Proof. destruct n; reflexivity. Qed.

Lemma preorder_unfold (n : Node) :
  preorder n = [] :: forest_positions preorder 0 (children n).
Proof. destruct n; reflexivity. Qed.

Section StackFacts.
Import TreeParser.
Variable h : string -> bool.

Lemma all_nodes_unfold (P : Node -> Prop) (n : Node) :
  all_nodes P n <-> P n /\ Forall (all_nodes P) (children n).
Proof.
  unfold all_nodes. rewrite nodes_unfold. split.
  - intros H. inversion H as [|? ? Hn Hcs]; subst. split; [exact Hn|].
    apply Forall_forall. intros c Hc. apply Forall_forall. intros m Hm.
    rewrite Forall_forall in Hcs. apply Hcs. apply in_flat_map. eauto.
  - intros [Hn Hcs]. constructor; [exact Hn|].
    apply Forall_forall. intros m Hm. apply in_flat_map in Hm as (c & Hc & Hm).
    rewrite Forall_forall in Hcs. specialize (Hcs c Hc).
    rewrite Forall_forall in Hcs. auto.
Qed.

(** *** Popping *)

Lemma pop_while_eq (d : Z) (top : Frame) (below : list Frame) :
  pop_while d top below
  = if (f_depth top <? d)%Z then Some (top, below)
    else match below with
         | [] => None
         | g :: below' => pop_while d (attach (close top) g) below'
         end.
Proof. destruct below; reflexivity. Qed.

Lemma pop_while_collapse (d : Z) (below : list Frame) :
  forall top t b,
    pop_while d top below = Some (t, b) -> collapse t b = collapse top below.
Proof.
  induction below as [|g below IH]; intros top t b; rewrite pop_while_eq;
    destruct (f_depth top <? d)%Z; intros H; try discriminate;
    try (injection H as <- <-; reflexivity).
  simpl. apply IH. exact H.
Qed.

Lemma pop_while_depth (d : Z) (below : list Frame) :
  forall top t b,
    pop_while d top below = Some (t, b) -> (f_depth t < d)%Z.
Proof.
  induction below as [|g below IH]; intros top t b; rewrite pop_while_eq;
    destruct (f_depth top <? d)%Z eqn:Hd; intros H; try discriminate;
    try (injection H as <- <-; apply Z.ltb_lt; exact Hd).
  apply (IH _ _ _ H).
Qed.

Lemma pop_while_consecutive (d : Z) (below : list Frame) :
  forall top t b,
    pop_while d top below = Some (t, b) ->
    consecutive top below -> consecutive t b.
Proof.
  induction below as [|g below IH]; intros top t b; rewrite pop_while_eq;
    destruct (f_depth top <? d)%Z; intros H Hc; try discriminate;
    try (injection H as <- <-; exact Hc).
  apply (IH _ _ _ H). destruct Hc as [_ Hc]. destruct below; exact Hc.
Qed.

(** Popping to a depth, then to a smaller one, is popping to the smaller
    one. *)
Lemma pop_while_pop_while (d d' : Z) (below : list Frame) :
  forall top t b,
    (d' <= d)%Z ->
    pop_while d top below = Some (t, b) ->
    pop_while d' top below = pop_while d' t b.
Proof.
  induction below as [|g below IH]; intros top t b Hle;
    rewrite (pop_while_eq d), (pop_while_eq d' top);
    destruct (f_depth top <? d)%Z eqn:Hd; intros H; try discriminate.
  - injection H as <- <-. rewrite pop_while_eq. reflexivity.
  - injection H as <- <-. rewrite (pop_while_eq d' top). reflexivity.
  - apply Z.ltb_ge in Hd.
    destruct (f_depth top <? d')%Z eqn:Hd'; [apply Z.ltb_lt in Hd'; lia|].
    apply IH; assumption.
Qed.

(** *** Invariants kept by the steps of the builder *)

Section Invariant.
Variable P : Node -> Prop.
Variable Q : Frame -> Prop.
Variable L : Line -> Prop.
Hypothesis Q_attach : forall n f, Q f -> Q (attach n f).
Hypothesis P_close :
  forall f, Q f -> Forall (all_nodes P) (f_children f) -> P (close f).

Lemma stack_inv_children (top : Frame) (below : list Frame) :
  stack_inv P Q top below -> Forall (all_nodes P) (f_children top).
Proof. destruct below; simpl; tauto. Qed.

Lemma stack_inv_pop (top g : Frame) (below : list Frame) :
  stack_inv P Q top (g :: below) ->
  stack_inv P Q (attach (close top) g) below.
Proof.
  simpl. intros (Hc & Hq & Hg).
  assert (Hn : all_nodes P (close top)).
  { apply all_nodes_unfold. split; [apply P_close; assumption | exact Hc]. }
  destruct below as [|g' below]; simpl in *.
  - split; [|exact I]. apply Forall_app. split; [tauto | auto].
  - destruct Hg as (Hgc & Hgq & Hrest). split; [|split; auto].
    apply Forall_app. split; [assumption | auto].
Qed.

Lemma pop_while_inv (d : Z) (below : list Frame) :
  forall top t b,
    pop_while d top below = Some (t, b) ->
    stack_inv P Q top below -> stack_inv P Q t b.
Proof.
  induction below as [|g below IH]; intros top t b; rewrite pop_while_eq;
    destruct (f_depth top <? d)%Z; intros H Hi; try discriminate;
    try (injection H as <- <-; exact Hi).
  apply (IH _ _ _ H). apply stack_inv_pop. exact Hi.
Qed.

Hypothesis Q_open : forall l f, L l -> open_frame h l = inr f -> Q f.

Lemma open_frame_children (l : Line) (f : Frame) :
  open_frame h l = inr f -> f_children f = [] /\ f_depth f = l_depth l.
Proof.
  unfold open_frame. destruct (normalize_name l); intros H; [discriminate|].
  injection H as <-. auto.
Qed.

Lemma add_line_inv (st st' : Stack) (l : Line) :
  L l ->
  add_line h st l = inr st' ->
  stack_inv P Q (fst st) (snd st) -> stack_inv P Q (fst st') (snd st').
Proof.
  intros Hline.
  unfold add_line. destruct st as [top below]; simpl.
  destruct (pop_while (l_depth l) top below) as [[t b]|] eqn:Hpop;
    [|discriminate].
  destruct (f_depth t + 1 <? l_depth l)%Z; [discriminate|].
  destruct (open_frame h l) as [e | f] eqn:Hopen; [discriminate|].
  intros H Hi. injection H as <-. simpl.
  destruct (open_frame_children l f Hopen) as [-> _].
  split; [constructor|]. split; [eauto|].
  apply (pop_while_inv _ _ _ _ _ Hpop Hi).
Qed.

Lemma add_lines_inv (ls : list Line) :
  Forall L ls ->
  forall st st',
    add_lines h st ls = inr st' ->
    stack_inv P Q (fst st) (snd st) -> stack_inv P Q (fst st') (snd st').
Proof.
  induction 1 as [|l ls Hline _ IH]; intros st st'; simpl.
  - intros H. injection H as <-. auto.
  - destruct (add_line h st l) as [e | st1] eqn:Hl; [discriminate|].
    intros H Hi. apply (IH _ _ H). apply (add_line_inv _ _ _ Hline Hl Hi).
Qed.

(** Every node below the root of the tree the stack stands for
    satisfies [P]. *)
Lemma collapse_inv (below : list Frame) :
  forall top,
    stack_inv P Q top below ->
    Forall (all_nodes P) (f_children (collapse top below)).
Proof.
  induction below as [|g below IH]; intros top Hi.
  - apply (stack_inv_children _ _ Hi).
  - simpl. apply IH. apply stack_inv_pop. exact Hi.
Qed.

End Invariant.

Lemma last_default {A : Type} (l : list A) :
  forall x d d', last (x :: l) d = last (x :: l) d'.
Proof.
  induction l as [|y l IH]; intros x d d'; [reflexivity|].
  change (last (y :: l) d = last (y :: l) d'). apply IH.
Qed.

(** The bottom entry keeps its depth, its name and its tag. *)
Lemma collapse_bottom (below : list Frame) :
  forall top,
    f_depth (collapse top below) = f_depth (last below top)
    /\ f_name (collapse top below) = f_name (last below top)
    /\ f_dir (collapse top below) = f_dir (last below top).
Proof.
  induction below as [|g below IH]; intros top; [simpl; auto|].
  cbn [collapse]. destruct (IH (attach (close top) g)) as (H1 & H2 & H3).
  rewrite H1, H2, H3.
  destruct below as [|g' below]; [simpl; auto|].
  change (last (g :: g' :: below) top) with (last (g' :: below) top).
  rewrite (last_default below g' (attach (close top) g) top). auto.
Qed.

End StackFacts.

Section BuildFacts.
Import TreeParser.
Variable h : string -> bool.

Lemma add_line_bottom (st st' : Stack) (l : Line) :
  add_line h st l = inr st' ->
  f_depth (collapse (fst st') (snd st')) = f_depth (collapse (fst st) (snd st))
  /\ f_name (collapse (fst st') (snd st')) = f_name (collapse (fst st) (snd st))
  /\ f_dir (collapse (fst st') (snd st')) = f_dir (collapse (fst st) (snd st)).
Proof.
  unfold add_line. destruct st as [top below]; simpl.
  destruct (pop_while (l_depth l) top below) as [[t b]|] eqn:Hpop;
    [|discriminate].
  destruct (f_depth t + 1 <? l_depth l)%Z; [discriminate|].
  destruct (open_frame h l) as [e | f]; [discriminate|].
  intros H. injection H as <-. cbn [fst snd].
  rewrite <- (pop_while_collapse _ _ _ _ _ Hpop).
  destruct (collapse_bottom b (attach (close f) t)) as (H1 & H2 & H3).
  destruct (collapse_bottom b t) as (H1' & H2' & H3').
  cbn [collapse]. rewrite H1, H2, H3, H1', H2', H3'.
  destruct b as [|g b]; [simpl; auto|].
  rewrite (last_default b g (attach (close f) t) t). auto.
Qed.

Lemma add_lines_bottom (ls : list Line) :
  forall st st',
    add_lines h st ls = inr st' ->
    f_depth (collapse (fst st') (snd st')) = f_depth (collapse (fst st) (snd st))
    /\ f_name (collapse (fst st') (snd st')) = f_name (collapse (fst st) (snd st))
    /\ f_dir (collapse (fst st') (snd st')) = f_dir (collapse (fst st) (snd st)).
Proof.
  induction ls as [|l ls IH]; intros st st'; simpl.
  - intros H. injection H as <-. auto.
  - destruct (add_line h st l) as [e | st1] eqn:Hl; [discriminate|].
    intros H. destruct (IH _ _ H) as (H1 & H2 & H3).
    destruct (add_line_bottom _ _ _ Hl) as (H1' & H2' & H3').
    rewrite H1, H2, H3. auto.
Qed.

Lemma build_lines_built (ls : list Line) (root : Node) (rn : string) :
  build_lines h ls = inr (root, rn) -> built h ls root rn.
Proof.
  unfold build_lines.
  destruct (2 <=? List.length (filter is_depth0 ls))%nat eqn:Hc.
  - apply Nat.leb_le in Hc.
    destruct (add_lines h (synthetic_root, []) ls) as [e | [top below]] eqn:Hrun;
      [discriminate|].
    intros H. injection H as <- <-.
    apply (built_multi h ls _ _ (top, below)); auto.
  - apply Nat.leb_gt in Hc.
    destruct ls as [|first rest]; [discriminate|].
    destruct (is_depth0 first) eqn:H0; [|discriminate].
    destruct (open_frame h first) as [e | f] eqn:Hopen; [discriminate|].
    destruct (add_lines h (f, []) rest) as [e | [top below]] eqn:Hrun;
      [discriminate|].
    intros H. injection H as <- <-.
    apply (built_single h (first :: rest) _ _ first rest f (top, below)); auto.
Qed.

Lemma build_tree_built (text : string) (root : Node) (rn : string) :
  build_tree h text = inr (root, rn) ->
  exists ls, classified (split LF text) = inr ls /\ built h ls root rn.
Proof.
  unfold build_tree, build.
  destruct (classified (split LF text)) as [e | ls]; [discriminate|].
  intros H. exists ls. split; [reflexivity|]. apply build_lines_built, H.
Qed.

(** The children rule holds of whatever leaves the stack. *)
Lemma close_children_rule (f : Frame) : children_rule (close f).
Proof.
  unfold children_rule, close; simpl.
  destruct (f_children f); [congruence | reflexivity].
Qed.

Lemma built_children_rule (ls : list Line) (root : Node) (rn : string) :
  built h ls root rn -> all_nodes children_rule root.
Proof.
  assert (Hgen : forall st0 ls0 st,
             add_lines h st0 ls0 = inr st ->
             f_children (fst st0) = [] -> snd st0 = [] ->
             all_nodes children_rule (close (collapse (fst st) (snd st)))).
  { intros st0 ls0 st Hrun Hcs Hb.
    apply all_nodes_unfold. split; [apply close_children_rule|].
    assert (HA : forall (n : Node) (f : Frame), True -> True) by auto.
    assert (HB : forall f : Frame, True ->
                   Forall (all_nodes children_rule) (f_children f) ->
                   children_rule (close f))
      by (intros; apply close_children_rule).
    assert (HC : forall (l : Line) (f : Frame),
                   True -> open_frame h l = inr f -> True) by auto.
    apply (collapse_inv children_rule (fun _ => True) HA HB).
    assert (HL : Forall (fun _ : Line => True) ls0)
      by (apply Forall_forall; auto).
    apply (add_lines_inv h children_rule (fun _ => True) (fun _ => True)
             HA HB HC ls0 HL _ _ Hrun).
    destruct st0 as [top below]; simpl in *. subst. simpl.
    rewrite Hcs. auto. }
  intros [st Hc Hrun -> _ | first rest f st Hc -> H0 Hopen Hrun -> _].
  - apply (Hgen _ _ _ Hrun); reflexivity.
  - apply (Hgen _ _ _ Hrun); [|reflexivity].
    apply (open_frame_children h first f Hopen).
Qed.

End BuildFacts.

(** C3: in every tree [build_tree] returns, a node with one or more
    children has kind [Directory], whatever the hint of its source line
    and whatever the context heuristic says. *)
Theorem C3_children_make_directory (h : string -> bool) (text : string)
    (root : Node) (rn : string) :
  TreeParser.build_tree h text = inr (root, rn) ->
  forall n : Node,
    In n (nodes root) -> children n <> [] -> kind n = Directory.
Proof.
  intros Hb n Hn Hcs.
  destruct (build_tree_built h text root rn Hb) as (ls & _ & Hbuilt).
  pose proof (built_children_rule h ls root rn Hbuilt) as Hall.
  unfold TreeParser.all_nodes in Hall. rewrite Forall_forall in Hall.
  apply (Hall n Hn Hcs).
Qed.

Lemma C3_children_make_directory_witness :
  kind (mkNode "src" Directory [mkNode "main.py" File []]) = Directory.
Proof.
  apply (C3_children_make_directory Samples.no_heuristic
           ("src" ++ nl ++ "    main.py")%string
           (mkNode "src" Directory [mkNode "main.py" File []]) "src");
    [reflexivity | simpl; auto | discriminate].
Defined.

(** ** The tree lists the source lines in pre-order *)

Section FlatFacts.
Import TreeParser.
Variable h : string -> bool.

Lemma flat_frame_unfold (f : Frame) :
  flat_frame f
  = (f_depth f, f_name f) :: flat_map (flat_node (f_depth f + 1)) (f_children f).
Proof. unfold flat_frame. rewrite flat_node_unfold. reflexivity. Qed.

Lemma flat_frame_attach (n : Node) (f : Frame) :
  flat_frame (attach n f) = flat_frame f ++ flat_node (f_depth f + 1) n.
Proof.
  rewrite !flat_frame_unfold. simpl. rewrite flat_map_app. simpl.
  rewrite app_nil_r. reflexivity.
Qed.

Lemma consecutive_depth (t t' : Frame) (b : list Frame) :
  f_depth t = f_depth t' -> consecutive t b -> consecutive t' b.
Proof. destruct b; simpl; [auto|]. intros <-. auto. Qed.

Lemma flat_collapse_ext (below : list Frame) :
  forall top1 top2 X,
    f_depth top1 = f_depth top2 ->
    consecutive top2 below ->
    flat_frame top1 = flat_frame top2 ++ X ->
    flat_frame (collapse top1 below) = flat_frame (collapse top2 below) ++ X.
Proof.
  induction below as [|g below IH]; intros top1 top2 X Hd Hc Hf; [exact Hf|].
  destruct Hc as [Hg Hc]. simpl. apply IH.
  - reflexivity.
  - apply (consecutive_depth g); [reflexivity | exact Hc].
  - rewrite !flat_frame_attach. unfold flat_frame in Hf |- *.
    rewrite <- app_assoc. f_equal.
    rewrite <- Hg, <- Hd in *. exact Hf.
Qed.

Lemma open_frame_fields (l : Line) (f : Frame) :
  open_frame h l = inr f ->
  f_depth f = l_depth l /\ f_name f = node_name l /\ f_children f = [].
Proof.
  unfold open_frame, normalize_name, node_name.
  destruct (strip_trailing_sep (l_name l) =? "")%string; [discriminate|].
  destruct (contains_sep (strip_trailing_sep (l_name l))); [discriminate|].
  intros H. injection H as <-. auto.
Qed.

Lemma add_line_flat (st st' : Stack) (l : Line) :
  add_line h st l = inr st' ->
  consecutive (fst st) (snd st) ->
  consecutive (fst st') (snd st')
  /\ flat_frame (collapse (fst st') (snd st'))
     = flat_frame (collapse (fst st) (snd st)) ++ [entry l].
Proof.
  unfold add_line. destruct st as [top below]; simpl.
  destruct (pop_while (l_depth l) top below) as [[t b]|] eqn:Hpop;
    [|discriminate].
  destruct (f_depth t + 1 <? l_depth l)%Z eqn:Hjump; [discriminate|].
  destruct (open_frame h l) as [e | f] eqn:Hopen; [discriminate|].
  intros H Hc. injection H as <-. cbn [fst snd].
  destruct (open_frame_fields l f Hopen) as (Hd & Hn & Hcs).
  pose proof (pop_while_depth _ _ _ _ _ Hpop) as Hlt.
  pose proof (pop_while_consecutive _ _ _ _ _ Hpop Hc) as Hc'.
  apply Z.ltb_ge in Hjump.
  assert (Hdf : f_depth f = (f_depth t + 1)%Z) by lia.
  split; [simpl; auto|].
  rewrite <- (pop_while_collapse _ _ _ _ _ Hpop). cbn [collapse].
  apply flat_collapse_ext; [reflexivity | exact Hc'|].
  rewrite flat_frame_attach. f_equal.
  rewrite <- Hdf. change (flat_frame f = [entry l]).
  rewrite flat_frame_unfold, Hcs. unfold entry. rewrite Hd, Hn. reflexivity.
Qed.

Lemma add_lines_flat (ls : list Line) :
  forall st st',
    add_lines h st ls = inr st' ->
    consecutive (fst st) (snd st) ->
    consecutive (fst st') (snd st')
    /\ flat_frame (collapse (fst st') (snd st'))
       = flat_frame (collapse (fst st) (snd st)) ++ map entry ls.
Proof.
  induction ls as [|l ls IH]; intros st st'; simpl.
  - intros H Hc. injection H as <-. rewrite app_nil_r. auto.
  - destruct (add_line h st l) as [e | st1] eqn:Hl; [discriminate|].
    intros H Hc. destruct (add_line_flat _ _ _ Hl Hc) as (Hc1 & Hf1).
    destruct (IH _ _ H Hc1) as (Hc' & Hf'). split; [exact Hc'|].
    rewrite Hf', Hf1, <- app_assoc. reflexivity.
Qed.

(** The pre-order listing of a built tree is the list of the source
    lines, after the invisible root when there is one. *)
Lemma built_flat (ls : list Line) (root : Node) (rn : string) :
  built h ls root rn ->
  (rn = "" /\ name root = "" /\ (2 <= List.length (filter is_depth0 ls))%nat
   /\ flat_node (-1) root = (-1, "")%Z :: map entry ls)
  \/ (rn <> "" /\ name root = rn /\ (List.length (filter is_depth0 ls) < 2)%nat
      /\ flat_node 0 root = map entry ls).
Proof.
  intros [st Hc Hrun -> -> | first rest f st Hc -> H0 Hopen Hrun -> ->].
  - left. destruct (add_lines_flat _ _ _ Hrun I) as (_ & Hf).
    destruct (add_lines_bottom h _ _ _ Hrun) as (Hd & Hn & _).
    cbn [fst snd collapse] in Hd, Hn, Hf.
    unfold flat_frame at 1 in Hf. rewrite Hd in Hf.
    repeat split; auto.
  - right. destruct (add_lines_flat _ _ _ Hrun I) as (_ & Hf).
    destruct (add_lines_bottom h _ _ _ Hrun) as (Hd & Hn & _).
    destruct (open_frame_fields first f Hopen) as (Hfd & Hfn & Hfc).
    cbn [fst snd collapse] in Hd, Hn, Hf.
    unfold flat_frame at 1 in Hf. rewrite Hd in Hf.
    unfold is_depth0 in H0. apply Z.eqb_eq in H0.
    repeat split; auto.
    + unfold open_frame, normalize_name in Hopen.
      destruct (strip_trailing_sep (l_name first) =? "")%string eqn:He;
        [discriminate|].
      destruct (contains_sep (strip_trailing_sep (l_name first)));
        [discriminate|].
      injection Hopen as <-. simpl. apply String.eqb_neq. exact He.
    + rewrite Hfd, H0 in Hf. rewrite Hf, flat_frame_unfold, Hfc.
      cbn [map]. unfold entry at 2. rewrite Hfd, Hfn, H0. reflexivity.
Qed.

End FlatFacts.

(** ** Indentation jumps *)

Section DepthFacts.
Import TreeParser.
Variable h : string -> bool.

Lemma shallower_cons (d x : Z) (ds : list Z) :
  shallower d (x :: ds) = if (x <? d)%Z then Some x else shallower d ds.
Proof. reflexivity. Qed.

Lemma shallower_app (d : Z) (ds es : list Z) (x : Z) :
  shallower d ds = Some x -> shallower d (ds ++ es) = Some x.
Proof.
  unfold shallower. induction ds as [|y ds IH]; simpl; [discriminate|].
  destruct (y <? d)%Z; auto.
Qed.

Lemma stack_depths_attach (n : Node) (g : Frame) (below : list Frame) :
  stack_depths (attach n g) below = stack_depths g below.
Proof. reflexivity. Qed.

(** Popping stops at the nearest entry shallower than [d]; what is left
    answers every search for a depth up to [d] like the whole stack. *)
Lemma pop_while_shallower (d : Z) (below : list Frame) :
  forall top t b,
    pop_while d top below = Some (t, b) ->
    shallower d (stack_depths top below) = Some (f_depth t)
    /\ forall d', (d' <= d)%Z ->
         shallower d' (stack_depths t b) = shallower d' (stack_depths top below).
Proof.
  induction below as [|g below IH]; intros top t b; rewrite pop_while_eq;
    unfold stack_depths; cbn [map]; rewrite shallower_cons;
    destruct (f_depth top <? d)%Z eqn:Hd; intros H; try discriminate.
  - injection H as <- <-. auto.
  - injection H as <- <-. auto.
  - destruct (IH _ _ _ H) as (H1 & H2).
    rewrite stack_depths_attach in H1, H2. unfold stack_depths in H1, H2.
    split; [exact H1|].
    intros d' Hle. specialize (H2 d' Hle). cbn [map] in H2 |- *.
    rewrite H2, (shallower_cons d' (f_depth top)). apply Z.ltb_ge in Hd.
    destruct (f_depth top <? d')%Z eqn:Hd'; [apply Z.ltb_lt in Hd'; lia|].
    reflexivity.
Qed.

Lemma pop_while_none (d : Z) (below : list Frame) :
  forall top,
    pop_while d top below = None ->
    shallower d (stack_depths top below) = None.
Proof.
  induction below as [|g below IH]; intros top; rewrite pop_while_eq;
    unfold stack_depths; cbn [map]; rewrite shallower_cons;
    destruct (f_depth top <? d)%Z eqn:Hd; intros H; try discriminate.
  - reflexivity.
  - apply (IH _ H).
Qed.

Lemma add_line_tracks (st st' : Stack) (l : Line) (above : list Z) :
  add_line h st l = inr st' ->
  tracks st above ->
  tracks st' (l_depth l :: above)
  /\ exists d', shallower (l_depth l) above = Some d'
               /\ (l_depth l <= d' + 1)%Z.
Proof.
  unfold add_line, tracks. destruct st as [top below]; cbn [fst snd].
  destruct (pop_while (l_depth l) top below) as [[t b]|] eqn:Hpop;
    [|discriminate].
  destruct (f_depth t + 1 <? l_depth l)%Z eqn:Hjump; [discriminate|].
  destruct (open_frame h l) as [e | f] eqn:Hopen; [discriminate|].
  intros H Htr. injection H as <-. cbn [fst snd].
  destruct (pop_while_shallower _ _ _ _ _ Hpop) as (H1 & H2).
  destruct (open_frame_children h l f Hopen) as (_ & Hd).
  apply Z.ltb_ge in Hjump. split.
  - intros d. unfold stack_depths. cbn [map].
    rewrite (shallower_cons d (f_depth f)), (shallower_cons d (l_depth l)), Hd.
    destruct (l_depth l <? d)%Z eqn:Hlt; [reflexivity|].
    apply Z.ltb_ge in Hlt.
    specialize (H2 d Hlt). unfold stack_depths in H2.
    cbn [map] in H2. rewrite H2. apply Htr.
  - exists (f_depth t). rewrite <- Htr. split; [exact H1 | lia].
Qed.

(** A line that skips a level makes the builder fail. *)
Lemma add_lines_skips (ls : list Line) :
  forall st above,
    tracks st above ->
    skips_from above ls = true ->
    exists e, add_lines h st ls = inl e.
Proof.
  induction ls as [|l ls IH]; intros st above Htr Hs; [discriminate|].
  cbn [skips_from] in Hs. cbn [add_lines].
  destruct (add_line h st l) as [e | st1] eqn:Hl; [eauto|].
  destruct (add_line_tracks _ _ _ _ Hl Htr) as (Htr1 & d' & Hd' & Hle).
  rewrite Hd' in Hs.
  destruct (d' + 1 <? l_depth l)%Z eqn:Hj; [apply Z.ltb_lt in Hj; lia|].
  apply (IH st1 (l_depth l :: above) Htr1 Hs).
Qed.

Lemma skips_from_app (ls : list Line) :
  forall above base,
    skips_from above ls = true -> skips_from (above ++ base) ls = true.
Proof.
  induction ls as [|l ls IH]; intros above base Hs; [discriminate|].
  cbn [skips_from] in *. apply orb_true_iff in Hs as [Hs | Hs].
  - destruct (shallower (l_depth l) above) as [d'|] eqn:Hf;
      [|discriminate].
    rewrite (shallower_app _ _ base _ Hf). rewrite Hs. reflexivity.
  - apply orb_true_iff. right.
    apply (IH (l_depth l :: above) base Hs).
Qed.

Lemma build_lines_skips (ls : list Line) :
  skips_level ls = true -> exists e, build_lines h ls = inl e.
Proof.
  unfold skips_level, build_lines. intros Hs.
  destruct (2 <=? List.length (filter is_depth0 ls))%nat.
  - destruct (add_lines_skips ls (synthetic_root, []) ([] ++ [(-1)%Z]))
      as (e & He).
    + intros d. reflexivity.
    + apply skips_from_app, Hs.
    + rewrite He. eauto.
  - destruct ls as [|first rest]; [eauto|].
    destruct (is_depth0 first); [|unfold raise; eauto].
    destruct (open_frame h first) as [e | f] eqn:Hopen; [eauto|].
    destruct (add_lines_skips rest (f, []) [l_depth first]) as (e & He).
    + intros d. unfold stack_depths; cbn [fst snd map].
      destruct (open_frame_children h first f Hopen) as (_ & ->).
      reflexivity.
    + cbn [skips_from] in Hs. exact Hs.
    + rewrite He. eauto.
Qed.

End DepthFacts.

(** The examples of section 8 of the specification. *)
Example spec_example_project :
  TreeParser.build_tree Samples.no_heuristic
    ("project/" ++ nl ++ "├── README.md" ++ nl ++ "├── src/"
       ++ nl ++ "│   └── main.py")%string
  = inr (Samples.project_tree, "project"%string).
Proof. reflexivity. Qed.

Example spec_example_ascii_connectors :
  TreeParser.build_tree Samples.no_heuristic
    ("project/" ++ nl ++ "|-- README.md" ++ nl ++ "`-- src/"
       ++ nl ++ "    `-- main.py")%string
  = inr (Samples.project_tree, "project"%string).
Proof. reflexivity. Qed.

Example spec_example_lone_connector :
  TreeParser.build_tree Samples.no_heuristic ("a/" ++ nl ++ "│")%string
  = inl (mkTreeParseError "malformed indentation or connector" (Some 2%nat)).
Proof. reflexivity. Qed.

(** C2: an input with a line more than one level deeper than the nearest
    line before it that is shallower than it is rejected with a
    [TreeParseError]: the builder does not guess a parent. *)
Theorem C2_indentation_jump_raises (h : string -> bool) (text : string)
    (ls : list TreeParser.Line) :
  TreeParser.classified (split LF text) = inr ls ->
  TreeParser.skips_level ls = true ->
  exists e : TreeParseError, TreeParser.build_tree h text = inl e.
Proof.
  intros Hc Hs. unfold TreeParser.build_tree, TreeParser.build. rewrite Hc.
  apply build_lines_skips, Hs.
Qed.

Lemma C2_indentation_jump_raises_witness :
  exists e : TreeParseError,
    TreeParser.build_tree Samples.no_heuristic ("a/" ++ nl ++ "        b.txt")%string
    = inl e.
Proof.
  apply (C2_indentation_jump_raises Samples.no_heuristic
           ("a/" ++ nl ++ "        b.txt")%string
           [TreeParser.mkLine 1 0 "a/" TreeParser.HintDirectory;
            TreeParser.mkLine 2 2 "b.txt" TreeParser.Unset]);
    reflexivity.
Defined.

(** ** Well-formed lines are accepted *)

Section Totality.
Import TreeParser.
Variable h : string -> bool.

Lemma shallower_in (d r : Z) (ds : list Z) :
  In r ds -> (r < d)%Z -> exists x, shallower d ds = Some x.
Proof.
  induction ds as [|y ds IH]; intros Hin Hlt; [destruct Hin|].
  rewrite shallower_cons. destruct (y <? d)%Z eqn:Hy; [eauto|].
  destruct Hin as [-> | Hin]; [apply Z.ltb_ge in Hy; lia | auto].
Qed.

Lemma open_frame_total (l : Line) :
  (exists n, normalize_name l = inr n) -> exists f, open_frame h l = inr f.
Proof. intros (n & Hn). unfold open_frame. rewrite Hn. eauto. Qed.

Lemma add_line_total (st : Stack) (l : Line) (above : list Z) (d' : Z) :
  tracks st above ->
  shallower (l_depth l) above = Some d' ->
  (l_depth l <= d' + 1)%Z ->
  (exists n, normalize_name l = inr n) ->
  exists st', add_line h st l = inr st'.
Proof.
  intros Htr Hsh Hle Hn. unfold add_line.
  destruct (pop_while (l_depth l) (fst st) (snd st)) as [[t b]|] eqn:Hpop.
  - destruct (pop_while_shallower _ _ _ _ _ Hpop) as (H1 & _).
    rewrite Htr, Hsh in H1. injection H1 as ->.
    destruct (f_depth t + 1 <? l_depth l)%Z eqn:Hj;
      [apply Z.ltb_lt in Hj; lia|].
    destruct (open_frame_total l Hn) as (f & ->). eauto.
  - apply pop_while_none in Hpop. rewrite Htr, Hsh in Hpop. discriminate.
Qed.

Lemma add_lines_total (r : Z) (ls : list Line) :
  forall st above,
    tracks st above ->
    In r above ->
    Forall (fun l => (r < l_depth l)%Z) ls ->
    Forall (fun l => exists n, normalize_name l = inr n) ls ->
    skips_from above ls = false ->
    exists st', add_lines h st ls = inr st'.
Proof.
  induction ls as [|l ls IH]; intros st above Htr Hin Hr Hn Hs;
    [simpl; eauto|].
  inversion Hr as [|? ? Hrl Hr']; subst. inversion Hn as [|? ? Hnl Hn']; subst.
  cbn [skips_from] in Hs. apply orb_false_iff in Hs as [Hs1 Hs2].
  destruct (shallower_in (l_depth l) r above Hin Hrl) as (d' & Hd').
  rewrite Hd' in Hs1. apply Z.ltb_ge in Hs1.
  destruct (add_line_total st l above d' Htr Hd' Hs1 Hnl) as (st1 & Hl).
  cbn [add_lines]. rewrite Hl.
  destruct (add_line_tracks h _ _ _ _ Hl Htr) as (Htr1 & _).
  apply (IH st1 (l_depth l :: above)); auto. right. exact Hin.
Qed.

(** Below the first depth-0 line the invisible root changes nothing in
    the search for skipped levels. *)
Lemma skips_from_base (ls : list Line) :
  forall above,
    Forall (fun x => (0 <= x)%Z) above ->
    Forall (fun l => (0 <= l_depth l)%Z) ls ->
    In 0%Z above \/ match ls with [] => True | l :: _ => l_depth l = 0%Z end ->
    skips_from (above ++ [(-1)%Z]) ls = skips_from above ls.
Proof.
  induction ls as [|l ls IH]; intros above Ha Hl H0; [reflexivity|].
  inversion Hl as [|? ? Hd Hl']; subst. cbn [skips_from].
  assert (Hrec : skips_from ((l_depth l :: above) ++ [(-1)%Z]) ls
                 = skips_from (l_depth l :: above) ls).
  { apply IH; [constructor; assumption | assumption |].
    destruct H0 as [H0 | H0]; [left; right; exact H0 | left; left; exact H0]. }
  cbn [app] in Hrec. rewrite Hrec. f_equal.
  destruct (shallower (l_depth l) above) as [x|] eqn:Hx.
  - rewrite (shallower_app _ _ [(-1)%Z] _ Hx). reflexivity.
  - assert (Hz : l_depth l = 0%Z).
    { destruct H0 as [H0 | H0]; [|exact H0].
      destruct (Z.eq_dec (l_depth l) 0) as [|Hne]; [assumption|].
      destruct (shallower_in (l_depth l) 0 above H0 ltac:(lia)) as (y & Hy).
      congruence. }
    assert (Hnone : shallower (l_depth l) (above ++ [(-1)%Z]) = Some (-1)%Z).
    { clear IH Hrec H0. rewrite Hz in *. clear Hz.
      induction above as [|y above IHa]; [reflexivity|].
      inversion Ha; subst. cbn [app]. rewrite shallower_cons in Hx |- *.
      destruct (y <? 0)%Z eqn:Hy; [discriminate | auto]. }
    rewrite Hnone, Hz. reflexivity.
Qed.

Lemma filter_depth0_nil (ls : list Line) :
  Forall (fun l => (0 <= l_depth l)%Z) ls ->
  filter is_depth0 ls = [] ->
  Forall (fun l => (0 < l_depth l)%Z) ls.
Proof.
  induction ls as [|l ls IH]; intros Hl Hf; [constructor|].
  inversion Hl as [|? ? Hd Hl']; subst. cbn [filter] in Hf.
  unfold is_depth0 at 1 in Hf.
  destruct (l_depth l =? 0)%Z eqn:H0; [discriminate|].
  apply Z.eqb_neq in H0. constructor; [lia | auto].
Qed.

Lemma build_lines_total (ls : list Line) :
  Forall (fun l => (0 <= l_depth l)%Z) ls ->
  well_formed ls ->
  exists root rn, build_lines h ls = inr (root, rn).
Proof.
  intros Hd (Hfirst & Hn & Hs). unfold build_lines.
  destruct (2 <=? List.length (filter is_depth0 ls))%nat eqn:Hc.
  - destruct (add_lines_total (-1) ls (synthetic_root, []) ([] ++ [(-1)%Z]))
      as ([top below] & Hrun).
    + intros d. reflexivity.
    + left. reflexivity.
    + eapply Forall_impl; [|exact Hd]. cbn beta. intros; lia.
    + exact Hn.
    + rewrite skips_from_base; [exact Hs | constructor | exact Hd |].
      right. destruct ls; [exact I | exact Hfirst].
    + rewrite Hrun. eauto.
  - destruct ls as [|first rest]; [destruct Hfirst|].
    unfold is_depth0 at 1. rewrite Hfirst. cbn [Z.eqb].
    inversion Hn as [|? ? Hn1 Hn']; subst.
    inversion Hd as [|? ? Hd1 Hd']; subst.
    destruct (open_frame_total first Hn1) as (f & Hopen). rewrite Hopen.
    apply Nat.leb_gt in Hc. cbn [filter] in Hc. unfold is_depth0 at 1 in Hc.
    rewrite Hfirst in Hc. cbn [Z.eqb List.length] in Hc.
    assert (Hnil : filter is_depth0 rest = []).
    { destruct (filter is_depth0 rest); [reflexivity | simpl in Hc; lia]. }
    destruct (add_lines_total 0 rest (f, []) [l_depth first])
      as ([top below] & Hrun).
    + intros d. unfold stack_depths; cbn [fst snd map].
      destruct (open_frame_children h first f Hopen) as (_ & ->). reflexivity.
    + left. exact Hfirst.
    + apply filter_depth0_nil; assumption.
    + exact Hn'.
    + unfold skips_level in Hs. cbn [skips_from] in Hs. exact Hs.
    + rewrite Hrun. eauto.
Qed.

End Totality.

(** ** The classifier *)

Section ClassifierFacts.
Import TreeParser.

Lemma string_app_assoc (a b c : string) :
  ((a ++ b) ++ c = a ++ (b ++ c))%string.
Proof. induction a as [|x a IH]; simpl; [reflexivity | rewrite IH; reflexivity]. Qed.

Lemma strip_prefix_spec (p : string) :
  forall s r, strip_prefix p s = Some r -> s = (p ++ r)%string.
Proof.
  induction p as [|a p IH]; intros s r; simpl.
  - intros H. injection H as ->. reflexivity.
  - destruct s as [|b s]; [discriminate|].
    destruct (Ascii.eqb_spec a b) as [-> | _]; [|discriminate].
    intros H. rewrite (IH _ _ H). reflexivity.
Qed.

Lemma strip_prefix_app (p s : string) : strip_prefix p (p ++ s) = Some s.
Proof.
  induction p as [|a p IH]; simpl; [reflexivity|].
  rewrite Ascii.eqb_refl. exact IH.
Qed.

Lemma first_unit_spec (units : list string) (s r : string) :
  first_unit units s = Some r ->
  exists u, In u units /\ s = (u ++ r)%string.
Proof.
  induction units as [|u units IH]; simpl; [discriminate|].
  destruct (strip_prefix u s) as [r'|] eqn:Hu.
  - intros H. injection H as ->. exists u. split; [auto|].
    apply strip_prefix_spec, Hu.
  - intros H. destruct (IH H) as (u' & Hin & Hs). eauto.
Qed.

Lemma strip_indent_spec (fuel : nat) :
  forall s k k' r,
    strip_indent fuel s k = (k', r) -> exists pre, s = (pre ++ r)%string.
Proof.
  induction fuel as [|fuel IH]; intros s k k' r; cbn [strip_indent].
  - intros H. injection H as _ ->. exists ""%string. reflexivity.
  - destruct (first_unit indent_units s) as [r1|] eqn:Hu.
    + intros H. destruct (IH _ _ _ _ H) as (pre & ->).
      destruct (first_unit_spec _ _ _ Hu) as (u & _ & ->).
      exists (u ++ pre)%string. apply eq_sym, string_app_assoc.
    + intros H. injection H as _ ->. exists ""%string. reflexivity.
Qed.

Lemma strip_connector_spec (ks : nat * string) :
  exists pre, snd ks = (pre ++ snd (strip_connector ks))%string.
Proof.
  unfold strip_connector.
  destruct (first_unit connector_units (snd ks)) as [r|] eqn:Hu.
  - destruct (first_unit_spec _ _ _ Hu) as (u & _ & Hs). exists u. exact Hs.
  - exists ""%string. reflexivity.
Qed.

(** What a classified line records. *)
Lemma classify_fields (no : nat) (raw : string) (l : Line) :
  classify no raw = inr l ->
  l_no l = no
  /\ (0 <= l_depth l)%Z
  /\ l_name l <> ""%string
  /\ malformed_start (l_name l) = false
  /\ l_hint l = (if ends_with_sep (l_name l) then HintDirectory else Unset)
  /\ exists pre, raw = (pre ++ l_name l)%string.
Proof.
  unfold classify.
  destruct (strip_indent (String.length raw) raw 0) as [k1 r1] eqn:Hi.
  destruct (strip_indent_spec _ _ _ _ _ Hi) as (pre1 & Hraw).
  destruct (strip_connector_spec (k1, r1)) as (pre2 & Hr1).
  destruct (strip_connector (k1, r1)) as [k rest]. cbn [snd] in Hr1.
  destruct (rest =? "")%string eqn:He; [discriminate|].
  destruct (malformed_start rest) eqn:Hm; [discriminate|].
  intros H. injection H as <-. cbn.
  apply String.eqb_neq in He. repeat split; auto; [lia|].
  exists (pre1 ++ pre2)%string. rewrite Hraw, Hr1.
  apply eq_sym, string_app_assoc.
Qed.

Lemma classify_all_fields (nls : list (nat * string)) :
  forall ls,
    classify_all nls = inr ls ->
    Forall2 (fun nl l => classify (fst nl) (snd nl) = inr l) nls ls.
Proof.
  induction nls as [|[no raw] nls IH]; intros ls; simpl.
  - intros H. injection H as <-. constructor.
  - destruct (classify no raw) as [e | l] eqn:Hl; [discriminate|].
    destruct (classify_all nls) as [e | ls']; [discriminate|].
    intros H. injection H as <-. constructor; auto.
Qed.

Lemma classified_depths (raw_lines : list string) (ls : list Line) :
  classified raw_lines = inr ls ->
  Forall (fun l => (0 <= l_depth l)%Z) ls.
Proof.
  unfold classified. intros H. apply classify_all_fields in H.
  induction H as [|nl l nls ls Hl _ IH]; constructor; [|exact IH].
  apply (classify_fields _ _ _ Hl).
Qed.

End ClassifierFacts.

(** ** Multi-root inputs *)

Section MultiRoot.
Import TreeParser.

Lemma flat_node_depths (n : Node) :
  forall d, Forall (fun e => (d <= fst e)%Z) (flat_node d n).
Proof.
  induction n as [nm k cs IH] using Node_forall_ind. intros d.
  rewrite flat_node_unfold. constructor; [simpl; lia|]. cbn [children].
  apply Forall_forall. intros e He.
  apply in_flat_map in He as (c & Hc & He).
  rewrite Forall_forall in IH. specialize (IH c Hc (d + 1)%Z).
  rewrite Forall_forall in IH. specialize (IH e He). lia.
Qed.

Lemma filter_none {A : Type} (f : A -> bool) (l : list A) :
  (forall x, In x l -> f x = false) -> filter f l = [].
Proof.
  induction l as [|x l IH]; intros H; [reflexivity|].
  cbn [filter]. rewrite (H x (or_introl eq_refl)).
  apply IH. intros y Hy. apply H. right. exact Hy.
Qed.

(** The entries of a forest that stand at its own depth are its roots. *)
Lemma forest_roots (d : Z) (cs : list Node) :
  map snd (filter (fun e => (fst e =? d)%Z) (flat_map (flat_node d) cs))
  = map name cs.
Proof.
  induction cs as [|c cs IH]; [reflexivity|].
  cbn [flat_map]. rewrite filter_app, map_app, IH, flat_node_unfold.
  cbn [filter fst]. rewrite Z.eqb_refl. cbn [map snd app]. f_equal.
  replace (filter (fun e => (fst e =? d)%Z)
             (flat_map (flat_node (d + 1)) (children c))) with
    (@nil (Z * string)); [reflexivity|].
  symmetry. apply filter_none. intros e He.
  apply in_flat_map in He as (c' & _ & He).
  pose proof (flat_node_depths c' (d + 1)%Z) as Hd.
  rewrite Forall_forall in Hd. specialize (Hd e He).
  apply Z.eqb_neq. lia.
Qed.

Lemma filter_entries (ls : list Line) :
  filter (fun e => (fst e =? 0)%Z) (map entry ls)
  = map entry (filter is_depth0 ls).
Proof.
  induction ls as [|l ls IH]; [reflexivity|].
  cbn [map filter]. unfold entry at 1, is_depth0 at 1. cbn [fst].
  destruct (l_depth l =? 0)%Z; cbn [map]; rewrite IH; reflexivity.
Qed.

End MultiRoot.

(** C6: for an input with two or more depth-0 lines, whatever
    [build_tree] returns is an invisible root with the empty name whose
    children are the nodes of the depth-0 lines, in their order, together
    with the empty root name; and [build_tree] does return on such an
    input when its lines are well-formed. *)
Theorem C6_multi_root_synthesized (h : string -> bool) (text : string)
    (ls : list TreeParser.Line) :
  TreeParser.classified (split LF text) = inr ls ->
  (2 <= List.length (filter TreeParser.is_depth0 ls))%nat ->
  (forall (root : Node) (rn : string),
      TreeParser.build_tree h text = inr (root, rn) ->
      rn = ""%string
      /\ name root = ""%string
      /\ map name (children root)
         = map TreeParser.node_name (filter TreeParser.is_depth0 ls))
  /\ (TreeParser.well_formed ls ->
      exists root : Node, TreeParser.build_tree h text = inr (root, ""%string)).
Proof.
  intros Hc H2.
  assert (Hret : forall (root : Node) (rn : string),
      TreeParser.build_tree h text = inr (root, rn) ->
      rn = ""%string
      /\ name root = ""%string
      /\ map name (children root)
         = map TreeParser.node_name (filter TreeParser.is_depth0 ls)).
  { intros root rn Hb.
    destruct (build_tree_built h text root rn Hb) as (ls' & Hc' & Hbuilt).
    rewrite Hc in Hc'. injection Hc' as <-.
    destruct (built_flat h ls root rn Hbuilt)
      as [(Hrn & Hname & _ & Hflat) | (_ & _ & Hlt & _)]; [|lia].
    split; [exact Hrn|]. split; [exact Hname|].
    rewrite flat_node_unfold in Hflat. injection Hflat as _ Hflat.
    change (-1 + 1)%Z with 0%Z in Hflat.
    rewrite <- (forest_roots 0 (children root)), Hflat, filter_entries.
    rewrite map_map. reflexivity. }
  split; [exact Hret|].
  intros Hwf.
  destruct (build_lines_total h ls (classified_depths _ _ Hc) Hwf)
    as (root & rn & Hb).
  assert (Hb' : TreeParser.build_tree h text = inr (root, rn)).
  { unfold TreeParser.build_tree, TreeParser.build. rewrite Hc. exact Hb. }
  destruct (Hret root rn Hb') as (-> & _). eauto.
Qed.

Lemma C6_multi_root_synthesized_witness :
  TreeParser.build_tree Samples.no_heuristic ("a/" ++ nl ++ "b/")%string
  = inr (Samples.multi_tree, ""%string)
  /\ map name (children Samples.multi_tree) = ["a"%string; "b"%string]
  /\ exists root : Node,
      TreeParser.build_tree Samples.no_heuristic ("a/" ++ nl ++ "b/")%string
      = inr (root, ""%string).
Proof.
  pose proof (C6_multi_root_synthesized Samples.no_heuristic
                ("a/" ++ nl ++ "b/")%string
                [TreeParser.mkLine 1 0 "a/" TreeParser.HintDirectory;
                 TreeParser.mkLine 2 0 "b/" TreeParser.HintDirectory]
                eq_refl (le_n 2)) as [Hret Htot].
  split; [reflexivity|]. split.
  - apply (Hret Samples.multi_tree ""%string eq_refl).
  - apply Htot. split; [reflexivity|]. split; [|reflexivity].
    repeat constructor; eexists; reflexivity.
Defined.

(** ** Pre-order traversal *)

Section Traversal.

Lemma before_app_l {A : Type} (x y : A) (l r : list A) :
  before x y l -> before x y (l ++ r).
Proof.
  intros (l1 & l2 & l3 & ->). exists l1, l2, (l3 ++ r).
  rewrite <- ?app_assoc; cbn [app]; rewrite <- ?app_assoc; reflexivity.
Qed.

Lemma before_app_r {A : Type} (x y : A) (l r : list A) :
  before x y r -> before x y (l ++ r).
Proof.
  intros (l1 & l2 & l3 & ->). exists (l ++ l1), l2, l3.
  rewrite <- ?app_assoc; reflexivity.
Qed.

Lemma before_cons {A : Type} (x y a : A) (l : list A) :
  before x y l -> before x y (a :: l).
Proof. apply (before_app_r x y [a] l). Qed.

Lemma before_in_app {A : Type} (x y : A) (l r : list A) :
  In x l -> In y r -> before x y (l ++ r).
Proof.
  intros Hx Hy.
  destruct (in_split _ _ Hx) as (l1 & l2 & ->).
  destruct (in_split _ _ Hy) as (r1 & r2 & ->).
  exists l1, (l2 ++ r1), r2.
  rewrite <- ?app_assoc; cbn [app]; rewrite <- ?app_assoc; reflexivity.
Qed.

Lemma before_map {A B : Type} (f : A -> B) (x y : A) (l : list A) :
  before x y l -> before (f x) (f y) (map f l).
Proof.
  intros (l1 & l2 & l3 & ->). exists (map f l1), (map f l2), (map f l3).
  rewrite !map_app. cbn [map]. rewrite !map_app. reflexivity.
Qed.

(** The positions below the children [cs] numbered from [i]. *)
Lemma forest_positions_in (cs : list Node) :
  forall i p,
    In p (forest_positions preorder i cs) ->
    exists k c q,
      p = k :: q /\ (i <= k)%nat /\ nth_error cs (k - i) = Some c
      /\ In q (preorder c).
Proof.
  induction cs as [|c cs IH]; intros i p Hp; [destruct Hp|].
  cbn [forest_positions] in Hp. apply in_app_or in Hp as [Hp | Hp].
  - apply in_map_iff in Hp as (q & <- & Hq).
    exists i, c, q. rewrite Nat.sub_diag. repeat split; auto.
  - destruct (IH _ _ Hp) as (k & c' & q & -> & Hle & Hnth & Hq).
    exists k, c', q. repeat split; auto; [lia|].
    replace (k - i)%nat with (S (k - S i)) by lia. exact Hnth.
Qed.

Lemma forest_positions_same (cs : list Node) :
  forall i j c q1 q2,
    nth_error cs j = Some c ->
    before q1 q2 (preorder c) ->
    before ((i + j)%nat :: q1) ((i + j)%nat :: q2)
           (forest_positions preorder i cs).
Proof.
  induction cs as [|c' cs IH]; intros i j c q1 q2 Hnth Hb;
    [destruct j; discriminate|].
  cbn [forest_positions]. destruct j as [|j]; cbn [nth_error] in Hnth.
  - injection Hnth as ->. rewrite Nat.add_0_r.
    apply before_app_l, before_map, Hb.
  - replace (i + S j)%nat with (S i + j)%nat by lia.
    apply before_app_r, (IH (S i) j c); assumption.
Qed.

Lemma forest_positions_apart (cs : list Node) :
  forall i k1 k2 q1 q2,
    (k1 < k2)%nat ->
    In (k1 :: q1) (forest_positions preorder i cs) ->
    In (k2 :: q2) (forest_positions preorder i cs) ->
    before (k1 :: q1) (k2 :: q2) (forest_positions preorder i cs).
Proof.
  induction cs as [|c cs IH]; intros i k1 k2 q1 q2 Hlt H1 H2; [destruct H1|].
  cbn [forest_positions] in *.
  apply in_app_or in H1 as [H1 | H1]; apply in_app_or in H2 as [H2 | H2].
  - apply in_map_iff in H1 as (? & [= <- <-] & _).
    apply in_map_iff in H2 as (? & [= <- <-] & _). lia.
  - apply before_in_app; assumption.
  - apply in_map_iff in H2 as (? & [= <- <-] & _).
    destruct (forest_positions_in _ _ _ H1) as (k & ? & ? & [= <- <-] & Hle & _).
    lia.
  - apply before_app_r, IH; assumption.
Qed.

Lemma preorder_in_cons (n : Node) (k : nat) (q : Pos) :
  In (k :: q) (preorder n) ->
  In (k :: q) (forest_positions preorder 0 (children n))
  /\ exists c, nth_error (children n) k = Some c /\ In q (preorder c).
Proof.
  rewrite preorder_unfold. intros [H | H]; [discriminate|].
  split; [exact H|].
  destruct (forest_positions_in _ _ _ H) as (k' & c & q' & [= <- <-] & _ & Hnth & Hq).
  rewrite Nat.sub_0_r in Hnth. eauto.
Qed.

(** A node is visited before every node below it. *)
Lemma preorder_parent_first (p : Pos) :
  forall n q,
    q <> [] -> In (p ++ q) (preorder n) -> before p (p ++ q) (preorder n).
Proof.
  induction p as [|k p IH]; intros n q Hq Hin.
  - cbn [app] in *. rewrite preorder_unfold in Hin |- *.
    destruct Hin as [Hin | Hin]; [congruence|].
    destruct (in_split _ _ Hin) as (l1 & l2 & ->).
    exists [], l1, l2. reflexivity.
  - cbn [app] in *.
    destruct (preorder_in_cons _ _ _ Hin) as (_ & c & Hnth & Hc).
    rewrite preorder_unfold. apply before_cons.
    apply (forest_positions_same (children n) 0 k c); [exact Hnth|].
    apply IH; assumption.
Qed.

(** The nodes below an earlier child are visited before the nodes below a
    later child of the same node. *)
Lemma preorder_siblings_in_order (p : Pos) :
  forall n i j q q',
    (i < j)%nat ->
    In (p ++ i :: q) (preorder n) ->
    In (p ++ j :: q') (preorder n) ->
    before (p ++ i :: q) (p ++ j :: q') (preorder n).
Proof.
  induction p as [|k p IH]; intros n i j q q' Hlt Hi Hj; cbn [app] in *.
  - destruct (preorder_in_cons _ _ _ Hi) as (Hi' & _).
    destruct (preorder_in_cons _ _ _ Hj) as (Hj' & _).
    rewrite preorder_unfold. apply before_cons.
    apply forest_positions_apart; assumption.
  - destruct (preorder_in_cons _ _ _ Hi) as (_ & c & Hnth & Hci).
    destruct (preorder_in_cons _ _ _ Hj) as (_ & c' & Hnth' & Hcj).
    rewrite Hnth in Hnth'. injection Hnth' as <-.
    rewrite preorder_unfold. apply before_cons.
    apply (forest_positions_same (children n) 0 k c); [exact Hnth|].
    apply IH; assumption.
Qed.

Lemma NoDup_map_cons (i : nat) (l : list Pos) :
  NoDup l -> NoDup (map (cons i) l).
Proof.
  induction 1 as [|q l Hq _ IH]; cbn [map]; constructor; [|exact IH].
  intros H. apply in_map_iff in H as (q' & [= ->] & Hq'). contradiction.
Qed.

Lemma forest_positions_NoDup (cs : list Node) :
  Forall (fun c => NoDup (preorder c)) cs ->
  forall i, NoDup (forest_positions preorder i cs).
Proof.
  induction 1 as [|c cs Hc _ IH]; intros i; [constructor|].
  cbn [forest_positions]. apply NoDup_app.
  - apply NoDup_map_cons, Hc.
  - apply IH.
  - intros p H1 H2. apply in_map_iff in H1 as (q & <- & _).
    destruct (forest_positions_in _ _ _ H2) as (k & ? & ? & [= <- <-] & Hle & _).
    lia.
Qed.

(** No position is visited twice. *)
Lemma preorder_NoDup (n : Node) : NoDup (preorder n).
Proof.
  induction n as [nm k cs IH] using Node_forall_ind.
  rewrite preorder_unfold. cbn [children]. constructor.
  - intros H. destruct (forest_positions_in _ _ _ H) as (? & ? & ? & [=] & _).
  - apply forest_positions_NoDup, IH.
Qed.

Import TreeParser.

Lemma entry_at_cons (d : Z) (n c : Node) (i : nat) (q : Pos) :
  nth_error (children n) i = Some c ->
  entry_at d n (i :: q) = entry_at (d + 1) c q.
Proof.
  intros H. unfold entry_at. cbn [subtree_at]. rewrite H.
  destruct (subtree_at q c); [|reflexivity].
  do 2 f_equal. cbn [List.length]. lia.
Qed.

Lemma entry_at_forest (d : Z) (n : Node) (cs : list Node) :
  Forall (fun c => forall d',
            map (entry_at d' c) (preorder c) = map Some (flat_node d' c)) cs ->
  forall pre,
    children n = pre ++ cs ->
    map (entry_at d n) (forest_positions preorder (List.length pre) cs)
    = map Some (flat_map (flat_node (d + 1)) cs).
Proof.
  induction 1 as [|c cs Hc _ IH]; intros pre Hn; [reflexivity|].
  cbn [forest_positions flat_map]. rewrite !map_app, map_map. f_equal.
  - rewrite <- Hc. apply map_ext. intros q. apply entry_at_cons.
    rewrite Hn, nth_error_app2, Nat.sub_diag; [reflexivity | lia].
  - specialize (IH (pre ++ [c])). rewrite length_app in IH.
    cbn [List.length] in IH. rewrite Nat.add_1_r in IH. apply IH.
    rewrite Hn, <- app_assoc. reflexivity.
Qed.

(** The positions in visiting order carry the pre-order listing. *)
Lemma entry_at_preorder (n : Node) :
  forall d, map (entry_at d n) (preorder n) = map Some (flat_node d n).
Proof.
  induction n as [nm k cs IH] using Node_forall_ind. intros d.
  rewrite preorder_unfold, flat_node_unfold. cbn [map children name].
  f_equal.
  - unfold entry_at. cbn. do 2 f_equal. lia.
  - apply (entry_at_forest d (mkNode nm k cs) cs IH []). reflexivity.
Qed.

End Traversal.

(** C7: in a tree [build_tree] returns, the pre-order traversal visits no
    position twice, visits a node before every node below it, visits the
    nodes below an earlier child before the nodes below a later child of
    the same node, and meets the nodes in the order of their source lines:
    the k-th node visited (the invisible root of a multi-root tree aside)
    has the depth and the name of the k-th line.  So parents come before
    their descendants, and children stand in the order of their lines. *)
Theorem C7_preorder_follows_source (h : string -> bool) (text : string)
    (ls : list TreeParser.Line) (root : Node) (rn : string) :
  TreeParser.classified (split LF text) = inr ls ->
  TreeParser.build_tree h text = inr (root, rn) ->
  NoDup (preorder root)
  /\ (forall p q : Pos,
        q <> [] -> In (p ++ q) (preorder root) ->
        before p (p ++ q) (preorder root))
  /\ (forall (p : Pos) (i j : nat) (q q' : Pos),
        (i < j)%nat ->
        In (p ++ i :: q) (preorder root) ->
        In (p ++ j :: q') (preorder root) ->
        before (p ++ i :: q) (p ++ j :: q') (preorder root))
  /\ map (TreeParser.node_entry root) (TreeParser.line_positions root)
     = map (fun l => Some (TreeParser.entry l)) ls.
Proof.
  intros Hc Hb.
  split; [apply preorder_NoDup|].
  split; [intros p q; apply preorder_parent_first|].
  split; [intros p i j q q'; apply preorder_siblings_in_order|].
  destruct (build_tree_built h text root rn Hb) as (ls' & Hc' & Hbuilt).
  rewrite Hc in Hc'. injection Hc' as <-.
  unfold TreeParser.node_entry, TreeParser.line_positions.
  destruct (built_flat h ls root rn Hbuilt)
    as [(_ & Hname & _ & Hflat) | (Hrn & Hname & _ & Hflat)].
  - rewrite Hname. cbn [String.eqb].
    rewrite <- tl_map, entry_at_preorder, Hflat. cbn [map tl].
    apply map_map.
  - rewrite <- Hname in Hrn. apply String.eqb_neq in Hrn. rewrite Hrn.
    rewrite entry_at_preorder, Hflat. apply map_map.
Qed.

Lemma C7_preorder_follows_source_witness :
  preorder Samples.project_tree = [[]; [0]; [1]; [1; 0]]%nat
  /\ before [1]%nat [1; 0]%nat (preorder Samples.project_tree)
  /\ before [0]%nat [1; 0]%nat (preorder Samples.project_tree)
  /\ map (TreeParser.node_entry Samples.project_tree)
         (TreeParser.line_positions Samples.project_tree)
     = [Some (0%Z, "project"%string); Some (1%Z, "README.md"%string);
        Some (1%Z, "src"%string); Some (2%Z, "main.py"%string)].
Proof.
  pose proof (C7_preorder_follows_source Samples.no_heuristic
                ("project/" ++ nl ++ "├── README.md" ++ nl ++ "├── src/"
                   ++ nl ++ "│   └── main.py" ++ nl)%string
                [TreeParser.mkLine 1 0 "project/" TreeParser.HintDirectory;
                 TreeParser.mkLine 2 1 "README.md" TreeParser.Unset;
                 TreeParser.mkLine 3 1 "src/" TreeParser.HintDirectory;
                 TreeParser.mkLine 4 2 "main.py" TreeParser.Unset]
                Samples.project_tree "project"%string eq_refl eq_refl)
    as (_ & Hparent & Hsibling & Hlines).
  split; [reflexivity|]. split; [|split].
  - apply (Hparent [1]%nat [0]%nat); [discriminate | simpl; auto].
  - apply (Hsibling [] 0%nat 1%nat [] [0]%nat); [lia | simpl; auto | simpl; auto].
  - exact Hlines.
Defined.

(** ** Strings of the round trip *)

Section StringFacts.
Import TreeParser.
Local Open Scope string_scope.

Lemma contains_lf_app (a b : string) :
  contains_lf (a ++ b) = contains_lf a || contains_lf b.
Proof.
  induction a as [|c a IH]; [reflexivity|].
  cbn [append contains_lf]. rewrite IH, orb_assoc. reflexivity.
Qed.

(** The pieces of a text split at line feeds hold no line feed. *)
Lemma split_contains_lf (s : string) :
  Forall (fun w => contains_lf w = false) (split LF s).
Proof.
  induction s as [|c s IH]; cbn [split]; [repeat constructor|].
  destruct (Ascii.eqb c LF) eqn:Hc; [constructor; [reflexivity | exact IH]|].
  destruct (split LF s) as [|w ws];
    [constructor; [cbn [contains_lf]; rewrite Hc; reflexivity | constructor]|].
  inversion IH as [|? ? Hw Hws]; subst. constructor; [|exact Hws].
  cbn [contains_lf]. rewrite Hc, Hw. reflexivity.
Qed.

Lemma split_one (x : string) :
  contains_lf x = false -> split LF x = [x].
Proof.
  induction x as [|c x IH]; [reflexivity|].
  cbn [contains_lf split]. intros H. apply orb_false_iff in H as [Hc Hx].
  rewrite Hc, (IH Hx). reflexivity.
Qed.

Lemma split_app_lf (x rest : string) :
  contains_lf x = false ->
  split LF (x ++ nl ++ rest) = x :: split LF rest.
Proof.
  induction x as [|c x IH]; intros H.
  - cbn [append nl split]. rewrite Ascii.eqb_refl. reflexivity.
  - cbn [contains_lf] in H. apply orb_false_iff in H as [Hc Hx].
    cbn [append split]. rewrite Hc. cbn [append] in IH. rewrite (IH Hx).
    reflexivity.
Qed.

(** Joining lines that hold no line feed and splitting again gives the
    lines back. *)
Lemma split_concat (lines : list string) :
  lines <> [] ->
  Forall (fun w => contains_lf w = false) lines ->
  split LF (String.concat nl lines) = lines.
Proof.
  induction lines as [|x lines IH]; intros Hne Hall; [congruence|].
  inversion Hall as [|? ? Hx Hrest]; subst.
  destruct lines as [|y lines].
  - cbn [String.concat]. apply split_one, Hx.
  - change (String.concat nl (x :: y :: lines))
      with (x ++ nl ++ String.concat nl (y :: lines)).
    rewrite (split_app_lf _ _ Hx), IH; [reflexivity | discriminate | exact Hrest].
Qed.

(** *** Prefixes *)

Lemma strip_prefix_ext (g : string) :
  forall a b r,
    strip_prefix g a = Some r -> strip_prefix g (a ++ b) = Some (r ++ b).
Proof.
  induction g as [|c g IH]; intros a b r; cbn [strip_prefix].
  - intros H. injection H as ->. reflexivity.
  - destruct a as [|x a]; [discriminate|]. cbn [append].
    destruct (Ascii.eqb c x); [apply IH | discriminate].
Qed.

Lemma strip_prefix_shrink (g : string) :
  forall a r,
    contains_sep g = false ->
    strip_prefix g (a ++ "/") = Some r ->
    exists r', strip_prefix g a = Some r'.
Proof.
  induction g as [|c g IH]; intros a r Hg; cbn [strip_prefix]; [eauto|].
  cbn [contains_sep] in Hg. apply orb_false_iff in Hg as [Hc Hg].
  destruct a as [|x a]; cbn [append].
  - destruct (Ascii.eqb_spec c "/") as [-> | Hne]; [discriminate|].
    intros H. exfalso. destruct (Ascii.eqb_spec c "/"); [contradiction|].
    discriminate.
  - destruct (Ascii.eqb c x); [apply IH; exact Hg | discriminate].
Qed.

Lemma strip_prefix_app_none (g u s : string) :
  strip_prefix g s = None -> strip_prefix (g ++ u) s = None.
Proof.
  revert s. induction g as [|c g IH]; intros s; cbn [strip_prefix append];
    [discriminate|].
  destruct s as [|x s]; [reflexivity|].
  destruct (Ascii.eqb c x); [apply IH | reflexivity].
Qed.

Lemma first_unit_none (units : list string) (s : string) :
  first_unit units s = None <-> Forall (fun u => strip_prefix u s = None) units.
Proof.
  induction units as [|u units IH]; cbn [first_unit].
  - split; [constructor | reflexivity].
  - destruct (strip_prefix u s) eqn:Hu.
    + split; [discriminate|]. intros H. inversion H; congruence.
    + rewrite IH. split; [intros H; constructor; assumption|].
      intros H. inversion H; assumption.
Qed.

End StringFacts.

(** ** Names and rendered lines *)

Section NameFacts.
Import TreeParser.
Local Open Scope string_scope.

Lemma strip_trailing_sep_prefix (s : string) :
  exists suf, s = strip_trailing_sep s ++ suf.
Proof.
  induction s as [|c s (suf & IH)]; [exists ""; reflexivity|].
  cbn [strip_trailing_sep]. destruct s as [|c' s].
  - destruct (Ascii.eqb c path_separator);
      [exists (String c "") | exists ""]; reflexivity.
  - exists suf. cbn [append]. rewrite <- IH. reflexivity.
Qed.

Lemma strip_trailing_sep_sep (nm : string) :
  strip_trailing_sep (nm ++ "/") = nm.
Proof.
  induction nm as [|c nm IH]; [reflexivity|].
  cbn [append strip_trailing_sep].
  destruct (nm ++ "/") as [|c' r] eqn:Hr.
  - destruct nm; discriminate.
  - rewrite IH. reflexivity.
Qed.

Lemma strip_trailing_sep_id (nm : string) :
  contains_sep nm = false -> strip_trailing_sep nm = nm.
Proof.
  induction nm as [|c nm IH]; [reflexivity|].
  cbn [contains_sep strip_trailing_sep]. intros H.
  apply orb_false_iff in H as [Hc Hnm].
  destruct nm as [|c' nm]; [rewrite Hc; reflexivity|].
  rewrite (IH Hnm). reflexivity.
Qed.

Lemma ends_with_sep_sep (nm : string) : ends_with_sep (nm ++ "/") = true.
Proof.
  induction nm as [|c nm IH]; [reflexivity|].
  cbn [append ends_with_sep].
  destruct (nm ++ "/") as [|c' r] eqn:Hr; [destruct nm; discriminate|].
  exact IH.
Qed.

Lemma ends_with_sep_none (nm : string) :
  contains_sep nm = false -> ends_with_sep nm = false.
Proof.
  induction nm as [|c nm IH]; [reflexivity|].
  cbn [contains_sep ends_with_sep]. intros H.
  apply orb_false_iff in H as [Hc Hnm].
  destruct nm as [|c' nm]; [exact Hc | apply IH, Hnm].
Qed.

Lemma glyphs_no_sep : Forall (fun g => contains_sep g = false) glyphs.
Proof. repeat constructor. Qed.

Lemma first_unit_prefix_none (units : list string) (s b : string) :
  first_unit units (s ++ b) = None -> first_unit units s = None.
Proof.
  rewrite !first_unit_none. induction 1 as [|u us Hu _ IH]; constructor;
    [|exact IH].
  destruct (strip_prefix u s) as [r|] eqn:Hp; [|reflexivity].
  rewrite (strip_prefix_ext _ _ b _ Hp) in Hu. discriminate.
Qed.

Lemma first_unit_sep_none (units : list string) (s : string) :
  Forall (fun g => contains_sep g = false) units ->
  first_unit units s = None -> first_unit units (s ++ "/") = None.
Proof.
  rewrite !first_unit_none. induction 1 as [|u us Hu _ IH]; intros Hs;
    [constructor|].
  inversion Hs as [|? ? Hp Hrest]; subst. constructor; [|apply IH, Hrest].
  destruct (strip_prefix u (s ++ "/")) as [r|] eqn:Hq; [|reflexivity].
  destruct (strip_prefix_shrink u s r Hu Hq) as (r' & Hr'). congruence.
Qed.

(** Whether a name starts badly is decided by a prefix that holds no
    separator. *)
Lemma malformed_start_prefix (a b : string) :
  a <> "" -> malformed_start (a ++ b) = false -> malformed_start a = false.
Proof.
  destruct a as [|c a]; [congruence|]. intros _.
  unfold malformed_start. cbn [append].
  change (String c (a ++ b)) with (String c a ++ b).
  intros H. apply orb_false_iff in H as [Hs Hg]. rewrite Hs. cbn [orb].
  destruct (first_unit glyphs (String c a ++ b)) eqn:Hb; [discriminate|].
  rewrite (first_unit_prefix_none _ _ _ Hb). reflexivity.
Qed.

Lemma malformed_start_sep (nm : string) :
  nm <> "" -> malformed_start nm = false -> malformed_start (nm ++ "/") = false.
Proof.
  destruct nm as [|c nm]; [congruence|]. intros _.
  unfold malformed_start. cbn [append].
  change (String c (nm ++ "/")) with (String c nm ++ "/").
  intros H. apply orb_false_iff in H as [Hs Hg]. rewrite Hs. cbn [orb].
  destruct (first_unit glyphs (String c nm)) eqn:Ha; [discriminate|].
  rewrite (first_unit_sep_none _ _ glyphs_no_sep Ha). reflexivity.
Qed.

(** A name that starts well starts with no indentation unit and with no
    connector. *)
Lemma malformed_start_units (s : string) :
  malformed_start s = false ->
  first_unit indent_units s = None /\ first_unit connector_units s = None.
Proof.
  destruct s as [|c s]; [split; reflexivity|].
  unfold malformed_start. intros H. apply orb_false_iff in H as [Hs Hg].
  destruct (first_unit glyphs (String c s)) eqn:Hgl; [discriminate|].
  apply first_unit_none in Hgl. rewrite Forall_forall in Hgl.
  assert (Hsp : strip_prefix "    " (String c s) = None).
  { cbn [strip_prefix]. unfold is_space in Hs.
    apply orb_false_iff in Hs as [Hs _]. apply orb_false_iff in Hs as [Hs _].
    rewrite Ascii.eqb_sym, Hs. reflexivity. }
  assert (Hu : forall g u, In g glyphs ->
             strip_prefix (g ++ u) (String c s) = None).
  { intros g u Hin. apply strip_prefix_app_none, Hgl, Hin. }
  split; apply first_unit_none; repeat constructor; try exact Hsp.
  - apply (Hu "│" "   "). cbn; auto.
  - apply (Hu "|" "   "). cbn; auto 10.
  - apply (Hu "├" "── "). cbn; auto.
  - apply (Hu "└" "── "). cbn; auto.
  - apply (Hu "|" "-- "). cbn; auto 10.
  - apply (Hu "`" "-- "). cbn; auto 10.
Qed.

Lemma indentation_length (d : nat) (s : string) :
  (d <= String.length (indentation d ++ s))%nat.
Proof.
  induction d as [|d IH]; [lia|].
  cbn [indentation append String.length]. lia.
Qed.

Lemma strip_indent_indentation (d : nat) :
  forall fuel s k,
    (d <= fuel)%nat ->
    first_unit indent_units s = None ->
    strip_indent fuel (indentation d ++ s) k = ((k + d)%nat, s).
Proof.
  induction d as [|d IH]; intros fuel s k Hle Hs.
  - cbn [indentation append]. rewrite Nat.add_0_r.
    destruct fuel; cbn [strip_indent]; [reflexivity | rewrite Hs; reflexivity].
  - destruct fuel as [|fuel]; [lia|].
    cbn [strip_indent].
    assert (Hu : first_unit indent_units (indentation (S d) ++ s)
                 = Some (indentation d ++ s)).
    { cbn [indentation]. rewrite string_app_assoc.
      cbn [indent_units first_unit]. rewrite strip_prefix_app. reflexivity. }
    rewrite Hu, IH; [f_equal; lia | lia | exact Hs].
Qed.

(** The line of a node classifies as its depth, its rendered name and the
    hint of its kind. *)
Lemma classify_rendered (no d : nat) (nm : string) (k : Kind) :
  good_name nm ->
  classify no (indentation d ++ render nm k)
  = inr (mkLine no (Z.of_nat d) (render nm k) (hint_of k)).
Proof.
  intros (Hne & Hsep & Hstart & _).
  assert (Hr : render nm k <> "" /\ malformed_start (render nm k) = false
               /\ ends_with_sep (render nm k)
                  = match k with Directory => true | File => false end).
  { destruct k; cbn [render].
    - split; [destruct nm; [congruence | discriminate]|].
      split; [apply malformed_start_sep; assumption | apply ends_with_sep_sep].
    - split; [exact Hne|]. split; [exact Hstart | apply ends_with_sep_none, Hsep]. }
  destruct Hr as (Hrne & Hrstart & Hrend).
  destruct (malformed_start_units _ Hrstart) as (Hiu & Hcu).
  unfold classify.
  rewrite (strip_indent_indentation d _ _ 0 (indentation_length d _) Hiu).
  unfold strip_connector. cbn [fst snd]. rewrite Hcu.
  apply String.eqb_neq in Hrne. rewrite Hrne, Hrstart, Hrend.
  destruct k; reflexivity.
Qed.

End NameFacts.

(** ** The nodes the parser makes *)

Section MadeFacts.
Import TreeParser.
Variable h : string -> bool.

Lemma Forall2_Forall_r {A B : Type} (R : A -> B -> Prop) (Q : A -> Prop)
    (P : B -> Prop) (xs : list A) (ys : list B) :
  (forall x y, Q x -> R x y -> P y) ->
  Forall2 R xs ys -> Forall Q xs -> Forall P ys.
Proof.
  intros HP H. induction H as [|x y xs ys Hxy _ IH]; intros HQ; constructor;
    inversion HQ; subst; eauto.
Qed.

(** The lines classified from a text have names that start well and hold
    no line feed. *)
Lemma classified_lines_ok (text : string) (ls : list Line) :
  classified (split LF text) = inr ls -> Forall line_ok ls.
Proof.
  unfold classified. intros H. apply classify_all_fields in H.
  eapply (Forall2_Forall_r _ (fun nl => contains_lf (snd nl) = false));
    [| exact H |].
  - intros [no raw] l Hraw Hl. cbn [fst snd] in *.
    destruct (classify_fields _ _ _ Hl) as (_ & _ & _ & Hstart & _ & pre & ->).
    rewrite contains_lf_app in Hraw. apply orb_false_iff in Hraw as [_ Hraw].
    split; assumption.
  - apply Forall_forall. intros [no raw] Hin.
    apply filter_In in Hin as [Hin _]. unfold numbered in Hin.
    apply in_combine_r in Hin. cbn [snd].
    pose proof (split_contains_lf text) as Hall.
    rewrite Forall_forall in Hall. apply Hall, Hin.
Qed.

Lemma open_frame_made (l : Line) (f : Frame) :
  line_ok l -> open_frame h l = inr f -> made_frame h f.
Proof.
  intros (Hstart & Hlf). unfold open_frame, normalize_name.
  destruct (strip_trailing_sep (l_name l) =? "")%string eqn:He; [discriminate|].
  destruct (contains_sep (strip_trailing_sep (l_name l))) eqn:Hs;
    [discriminate|].
  intros H. injection H as <-. apply String.eqb_neq in He.
  destruct (strip_trailing_sep_prefix (l_name l)) as (suf & Hsuf).
  split; cbn [f_name f_dir].
  - split; [exact He|]. split; [exact Hs|]. split.
    + apply (malformed_start_prefix _ suf He). rewrite <- Hsuf. exact Hstart.
    + rewrite Hsuf, contains_lf_app in Hlf.
      apply orb_false_iff in Hlf as [Hlf _]. exact Hlf.
  - intros ->. apply orb_true_r.
Qed.

Lemma close_made (f : Frame) :
  made_frame h f -> made_node h (close f).
Proof.
  intros (Hname & Hdir). split; [exact Hname|]. cbn [close kind children name].
  unfold resolve_kind. destruct (f_children f); [|discriminate].
  destruct (f_dir f) eqn:Hd; [discriminate|]. intros _. split; [reflexivity|].
  destruct (h (f_name f)); [|reflexivity]. symmetry. apply Hdir. reflexivity.
Qed.

Lemma made_frame_attach (n : Node) (f : Frame) :
  made_frame h f -> made_frame h (attach n f).
Proof. intros H. exact H. Qed.

(** The nodes below the root of the tree a run leaves are made nodes. *)
Lemma add_lines_made (ls : list Line) (st0 st : Stack) :
  Forall line_ok ls ->
  add_lines h st0 ls = inr st ->
  f_children (fst st0) = [] -> snd st0 = [] ->
  Forall (all_nodes (made_node h)) (f_children (collapse (fst st) (snd st))).
Proof.
  intros Hok Hrun Hcs Hb.
  assert (HB : forall f : Frame, made_frame h f ->
                 Forall (all_nodes (made_node h)) (f_children f) ->
                 made_node h (close f))
    by (intros f Hf _; apply close_made, Hf).
  assert (HC : forall (l : Line) (f : Frame),
                 line_ok l -> open_frame h l = inr f -> made_frame h f)
    by apply open_frame_made.
  apply (collapse_inv (made_node h) (made_frame h) made_frame_attach HB).
  apply (add_lines_inv h (made_node h) (made_frame h) line_ok
           made_frame_attach HB HC ls Hok _ _ Hrun).
  destruct st0 as [top below]; cbn [fst snd] in *. subst. cbn [stack_inv].
  rewrite Hcs. auto.
Qed.

(** The depth-0 lines of a multi-root input are the children of the
    root. *)
Lemma flat_children (ls : list Line) (root : Node) :
  flat_node (-1) root = (-1, "")%Z%string :: map entry ls ->
  map name (children root) = map node_name (filter is_depth0 ls).
Proof.
  intros Hflat. rewrite flat_node_unfold in Hflat. injection Hflat as _ Hflat.
  change (-1 + 1)%Z with 0%Z in Hflat.
  rewrite <- (forest_roots 0 (children root)), Hflat, filter_entries.
  rewrite map_map. reflexivity.
Qed.

(** The shape of a built tree. *)
Lemma built_made (ls : list Line) (root : Node) (rn : string) :
  Forall line_ok ls ->
  built h ls root rn ->
  Forall (all_nodes (made_node h)) (children root)
  /\ ((rn = ""%string /\ name root = ""%string /\ kind root = Directory
       /\ (2 <= List.length (children root))%nat)
      \/ (rn <> ""%string /\ name root = rn /\ made_node h root)).
Proof.
  intros Hok Hbuilt.
  pose proof (built_flat h ls root rn Hbuilt) as Hflat.
  destruct Hbuilt as [st Hc Hrun Hroot Hrn | first rest f st Hc Hls H0 Hopen Hrun Hroot Hrn].
  - pose proof (add_lines_made ls _ _ Hok Hrun eq_refl eq_refl) as Hcs.
    destruct (add_lines_bottom h _ _ _ Hrun) as (_ & _ & Hdir).
    cbn [fst snd collapse] in Hdir.
    split; [subst root; exact Hcs|]. left.
    destruct Hflat as [(_ & Hname & _ & Hf) | (Hne & _)]; [|congruence].
    split; [exact Hrn|]. split; [exact Hname|]. split.
    + subst root. cbn [close kind]. rewrite Hdir. cbn [synthetic_root f_dir].
      unfold resolve_kind. destruct (f_children _); reflexivity.
    + pose proof (flat_children ls root Hf) as Hmap.
      apply (f_equal (@List.length string)) in Hmap.
      rewrite !length_map in Hmap. lia.
  - subst ls. inversion Hok as [|? ? Hok1 Hok']; subst.
    destruct (open_frame_fields h first f Hopen) as (_ & _ & Hfc).
    pose proof (add_lines_made rest _ _ Hok' Hrun Hfc eq_refl) as Hcs.
    destruct (add_lines_bottom h _ _ _ Hrun) as (_ & Hn & Hdir).
    cbn [fst snd collapse] in Hn, Hdir.
    split; [exact Hcs|]. right.
    destruct Hflat as [(_ & _ & Hge & _) | (Hne & Hname & _)]; [lia|].
    split; [exact Hne|]. split; [exact Hname|].
    apply close_made.
    destruct (open_frame_made first f Hok1 Hopen) as (Hgood & Hd).
    split; [rewrite Hn; exact Hgood | rewrite Hn, Hdir; exact Hd].
Qed.

End MadeFacts.

(** ** Rebuilding a tree from its lines *)

Section Rebuild.
Import TreeParser.
Variable h : string -> bool.

Lemma attach_all_nil (f : Frame) : attach_all [] f = f.
Proof. destruct f. unfold attach_all. cbn. rewrite app_nil_r. reflexivity. Qed.

Lemma attach_all_attach (c : Node) (cs : list Node) (f : Frame) :
  attach_all cs (attach c f) = attach_all (c :: cs) f.
Proof. unfold attach_all, attach. cbn. rewrite <- app_assoc. reflexivity. Qed.

Lemma add_lines_app (l1 l2 : list Line) :
  forall st,
    add_lines h st (l1 ++ l2)
    = match add_lines h st l1 with
      | inl e => inl e
      | inr st1 => add_lines h st1 l2
      end.
Proof.
  induction l1 as [|l l1 IH]; intros st; [reflexivity|].
  cbn [app add_lines]. destruct (add_line h st l); [reflexivity | apply IH].
Qed.

Lemma open_frame_rendered (no : nat) (d : Z) (nm : string) (k : Kind) :
  good_name nm ->
  open_frame h (mkLine no d (render nm k) (hint_of k))
  = inr (rendered_frame h d nm k).
Proof.
  intros (Hne & Hsep & _ & _). unfold open_frame, normalize_name.
  cbn [l_name l_no l_depth l_hint].
  assert (Hn : strip_trailing_sep (render nm k) = nm).
  { destruct k; cbn [render];
      [apply strip_trailing_sep_sep | apply strip_trailing_sep_id, Hsep]. }
  rewrite Hn. apply String.eqb_neq in Hne. rewrite Hne, Hsep. reflexivity.
Qed.

Lemma close_rendered (d : Z) (nm : string) (k : Kind) (cs : list Node) :
  made_node h (mkNode nm k cs) ->
  close (attach_all cs (rendered_frame h d nm k)) = mkNode nm k cs.
Proof.
  intros (_ & Hk). cbn [kind children name] in Hk.
  unfold close, attach_all, rendered_frame. cbn. f_equal.
  unfold resolve_kind. destruct k; cbn.
  - destruct cs; reflexivity.
  - destruct (Hk eq_refl) as (-> & ->). reflexivity.
Qed.

Lemma rebuilds_forest (cs : list Node) :
  Forall (rebuilds h) cs ->
  forall (d : nat) (ls : list Line) (st : Stack) (top : Frame)
         (below : list Frame),
    Forall2 classifies (flat_map (serialize_node d) cs) ls ->
    pop_while (Z.of_nat d) (fst st) (snd st) = Some (top, below) ->
    (f_depth top + 1)%Z = Z.of_nat d ->
    exists st',
      add_lines h st ls = inr st'
      /\ pop_while (Z.of_nat d) (fst st') (snd st')
         = Some (attach_all cs top, below).
Proof.
  induction 1 as [|c cs Hc _ IH]; intros d ls st top below Hls Hpop Hd.
  - cbn [flat_map] in Hls. inversion Hls; subst.
    exists st. rewrite attach_all_nil. auto.
  - cbn [flat_map] in Hls.
    apply Forall2_app_inv_l in Hls as (l1 & l2 & H1 & H2 & ->).
    destruct (Hc d l1 st top below H1 Hpop Hd) as (st1 & Hrun1 & Hpop1).
    destruct (IH d l2 st1 (attach c top) below H2 Hpop1 Hd)
      as (st' & Hrun' & Hpop').
    exists st'. rewrite add_lines_app, Hrun1, Hrun', Hpop'.
    rewrite attach_all_attach. auto.
Qed.

(** Every made tree is rebuilt from its lines. *)
Lemma made_rebuilds (n : Node) : all_nodes (made_node h) n -> rebuilds h n.
Proof.
  induction n as [nm k cs IH] using Node_forall_ind. intros Hall.
  apply all_nodes_unfold in Hall as (Hmade & Hcs). cbn [children] in Hcs.
  assert (IHcs : Forall (rebuilds h) cs).
  { rewrite Forall_forall in IH, Hcs |- *. intros c Hin. auto. }
  pose proof Hmade as (Hgood & _). cbn [name] in Hgood.
  intros d ls st top below Hls Hpop Hd.
  cbn [serialize_node] in Hls.
  inversion Hls as [|raw0 l0 raws ls' (no & Hl0) Hls']; subst.
  rewrite (classify_rendered no d nm k Hgood) in Hl0. injection Hl0 as <-.
  pose proof (rebuilds_forest cs IHcs (S d) ls'
                (rendered_frame h (Z.of_nat d) nm k, top :: below)
                (rendered_frame h (Z.of_nat d) nm k) (top :: below) Hls')
    as Hforest.
  destruct Hforest as (st' & Hrun' & Hpop').
  - cbn [fst snd]. rewrite pop_while_eq. cbn [rendered_frame f_depth].
    replace (Z.of_nat d <? Z.of_nat (S d))%Z with true;
      [reflexivity | symmetry; apply Z.ltb_lt; lia].
  - cbn [rendered_frame f_depth]. lia.
  - exists st'. split.
    + cbn [add_lines]. unfold add_line. cbn [l_depth]. rewrite Hpop.
      replace (f_depth top + 1 <? Z.of_nat d)%Z with false
        by (symmetry; apply Z.ltb_ge; lia).
      rewrite (open_frame_rendered no (Z.of_nat d) nm k Hgood). exact Hrun'.
    + rewrite (pop_while_pop_while (Z.of_nat (S d)) (Z.of_nat d) _ _ _ _
                 ltac:(lia) Hpop').
      rewrite pop_while_eq.
      replace (f_depth (attach_all cs (rendered_frame h (Z.of_nat d) nm k))
               <? Z.of_nat d)%Z with false
        by (symmetry; apply Z.ltb_ge; cbn; lia).
      rewrite pop_while_eq.
      replace (f_depth (attach (close (attach_all cs
                 (rendered_frame h (Z.of_nat d) nm k))) top) <? Z.of_nat d)%Z
        with true by (symmetry; apply Z.ltb_lt; cbn [attach f_depth]; lia).
      rewrite (close_rendered _ nm k cs Hmade). reflexivity.
Qed.

End Rebuild.

(** ** The serialized text *)

Section Serialized.
Import TreeParser.
Variable h : string -> bool.

Lemma is_blank_indentation (d : nat) (s : string) :
  is_blank (indentation d ++ s) = is_blank s.
Proof. induction d as [|d IH]; [reflexivity | exact IH]. Qed.

Lemma contains_lf_indentation (d : nat) : contains_lf (indentation d) = false.
Proof. induction d as [|d IH]; [reflexivity | exact IH]. Qed.

(** The line of a made node is kept and classified. *)
Lemma rendered_line_ok (d : nat) (nm : string) (k : Kind) :
  good_name nm ->
  raw_ok (indentation d ++ render nm k)
  /\ forall no, exists l, classify no (indentation d ++ render nm k) = inr l.
Proof.
  intros Hgood. pose proof Hgood as (Hne & _ & Hstart & Hlf).
  split; [split|].
  - rewrite is_blank_indentation.
    destruct nm as [|c nm]; [congruence|].
    unfold malformed_start in Hstart.
    apply orb_false_iff in Hstart as [Hs _].
    destruct k; cbn [render append is_blank]; rewrite Hs; reflexivity.
  - rewrite contains_lf_app, contains_lf_indentation.
    destruct k; cbn [render orb]; [|exact Hlf].
    rewrite contains_lf_app, Hlf. reflexivity.
  - intros no. rewrite (classify_rendered no d nm k Hgood). eauto.
Qed.

Lemma serialize_node_ok (n : Node) :
  all_nodes (made_node h) n ->
  forall d,
    Forall (fun raw => raw_ok raw /\ forall no, exists l, classify no raw = inr l)
           (serialize_node d n).
Proof.
  induction n as [nm k cs IH] using Node_forall_ind. intros Hall d.
  apply all_nodes_unfold in Hall as ((Hgood & _) & Hcs).
  cbn [children name] in *. cbn [serialize_node].
  constructor; [apply rendered_line_ok, Hgood|].
  apply Forall_forall. intros raw Hraw.
  apply in_flat_map in Hraw as (c & Hc & Hraw).
  rewrite Forall_forall in IH, Hcs.
  specialize (IH c Hc (Hcs c Hc) (S d)). rewrite Forall_forall in IH. auto.
Qed.

Lemma serialize_forest_ok (cs : list Node) (d : nat) :
  Forall (all_nodes (made_node h)) cs ->
  Forall (fun raw => raw_ok raw /\ forall no, exists l, classify no raw = inr l)
         (flat_map (serialize_node d) cs).
Proof.
  intros Hcs. apply Forall_forall. intros raw Hraw.
  apply in_flat_map in Hraw as (c & Hc & Hraw).
  rewrite Forall_forall in Hcs.
  pose proof (serialize_node_ok c (Hcs c Hc) d) as H.
  rewrite Forall_forall in H. auto.
Qed.

Lemma filter_all {A : Type} (f : A -> bool) (l : list A) :
  (forall x, In x l -> f x = true) -> filter f l = l.
Proof.
  induction l as [|x l IH]; intros H; [reflexivity|].
  cbn [filter]. rewrite (H x (or_introl eq_refl)). f_equal.
  apply IH. intros y Hy. apply H. right. exact Hy.
Qed.

Lemma classify_all_total (raws : list string) :
  Forall (fun raw => forall no, exists l, classify no raw = inr l) raws ->
  forall nos,
    List.length nos = List.length raws ->
    exists ls,
      classify_all (combine nos raws) = inr ls /\ Forall2 classifies raws ls.
Proof.
  induction 1 as [|raw raws Hraw _ IH]; intros nos Hlen.
  - destruct nos; [|discriminate]. exists []. split; [reflexivity | constructor].
  - destruct nos as [|no nos]; [discriminate|]. cbn [List.length] in Hlen.
    destruct (Hraw no) as (l & Hl).
    destruct (IH nos ltac:(lia)) as (ls & Hls & Hall).
    exists (l :: ls). cbn [combine classify_all]. rewrite Hl, Hls.
    split; [reflexivity|]. constructor; [exists no; exact Hl | exact Hall].
Qed.

(** Lines that are kept and classified are all classified, in order. *)
Lemma classified_total (raws : list string) :
  Forall (fun raw => raw_ok raw /\ forall no, exists l, classify no raw = inr l)
         raws ->
  exists ls, classified raws = inr ls /\ Forall2 classifies raws ls.
Proof.
  clear h. intros Hall. unfold classified.
  rewrite filter_all.
  - apply classify_all_total; [|unfold numbered; apply length_seq].
    eapply Forall_impl; [|exact Hall]. cbn beta. tauto.
  - intros [no raw] Hin. unfold numbered in Hin. apply in_combine_r in Hin.
    rewrite Forall_forall in Hall. destruct (Hall raw Hin) as ((Hb & _) & _).
    cbn [snd]. rewrite Hb. reflexivity.
Qed.

Lemma split_serialized (raws : list string) :
  raws <> [] ->
  Forall (fun raw => raw_ok raw /\ forall no, exists l, classify no raw = inr l)
         raws ->
  split LF (String.concat nl raws) = raws.
Proof.
  clear h. intros Hne Hall. apply split_concat; [exact Hne|].
  eapply Forall_impl; [|exact Hall]. cbn beta. unfold raw_ok. tauto.
Qed.

End Serialized.

(** ** Round trip *)

Section RoundTrip.
Import TreeParser.
Variable h : string -> bool.

Lemma made_forest_rebuilds (cs : list Node) :
  Forall (all_nodes (made_node h)) cs -> Forall (rebuilds h) cs.
Proof.
  intros H. eapply Forall_impl; [|exact H]. apply made_rebuilds.
Qed.

(** The lines of a forest of two or more made trees build the forest
    under the invisible root. *)
Lemma rebuild_lines_multi (cs : list Node) (ls : list Line) :
  Forall (all_nodes (made_node h)) cs ->
  (2 <= List.length cs)%nat ->
  Forall2 classifies (flat_map (serialize_node 0) cs) ls ->
  build_lines h ls = inr (mkNode "" Directory cs, ""%string).
Proof.
  intros Hcs Hlen Hls.
  destruct (rebuilds_forest h cs (made_forest_rebuilds cs Hcs) 0 ls
              (synthetic_root, []) synthetic_root [] Hls eq_refl eq_refl)
    as ([top below] & Hrun & Hpop).
  cbn [fst snd] in Hpop.
  pose proof (pop_while_collapse _ _ _ _ _ Hpop) as Hcol. cbn [collapse] in Hcol.
  destruct (add_lines_flat h ls _ _ Hrun I) as (_ & Hflat).
  cbn [fst snd collapse] in Hflat. rewrite <- Hcol in Hflat.
  assert (Hclose : close (attach_all cs synthetic_root) = mkNode "" Directory cs).
  { unfold close, attach_all, synthetic_root. cbn.
    destruct cs; [cbn in Hlen; lia | reflexivity]. }
  unfold flat_frame in Hflat. rewrite Hclose in Hflat.
  cbn [attach_all synthetic_root f_depth] in Hflat.
  change (flat_node (-1) (close {| f_depth := -1; f_name := ""; f_dir := true;
                                   f_children := [] |}))
    with [((-1)%Z, ""%string)] in Hflat.
  cbn [app] in Hflat.
  pose proof (flat_children ls _ Hflat) as Hmap. cbn [children] in Hmap.
  apply (f_equal (@List.length string)) in Hmap. rewrite !length_map in Hmap.
  unfold build_lines. rewrite <- Hmap.
  replace (2 <=? List.length cs)%nat with true
    by (symmetry; apply Nat.leb_le; exact Hlen).
  rewrite Hrun. unfold close_all. rewrite <- Hcol, Hclose. reflexivity.
Qed.

(** The lines of a made tree build the tree. *)
Lemma rebuild_lines_single (nm : string) (k : Kind) (cs : list Node)
    (ls : list Line) :
  all_nodes (made_node h) (mkNode nm k cs) ->
  Forall2 classifies (serialize_node 0 (mkNode nm k cs)) ls ->
  build_lines h ls = inr (mkNode nm k cs, nm).
Proof.
  intros Hall Hls.
  apply all_nodes_unfold in Hall as (Hmade & Hcs). cbn [children] in Hcs.
  pose proof Hmade as (Hgood & _). cbn [name] in Hgood.
  cbn [serialize_node] in Hls.
  inversion Hls as [|raw0 l0 raws ls' (no & Hl0) Hls']; subst.
  pose proof (classify_rendered no 0 nm k Hgood) as Hcr.
  cbn [indentation append Z.of_nat] in Hcr.
  cbn [indentation append] in Hl0. rewrite Hcr in Hl0. injection Hl0 as <-.
  destruct (rebuilds_forest h cs (made_forest_rebuilds cs Hcs) 1 ls'
              (rendered_frame h 0 nm k, []) (rendered_frame h 0 nm k) []
              Hls' eq_refl eq_refl)
    as ([top below] & Hrun & Hpop).
  cbn [fst snd] in Hpop.
  pose proof (pop_while_collapse _ _ _ _ _ Hpop) as Hcol. cbn [collapse] in Hcol.
  destruct (add_lines_flat h ls' _ _ Hrun I) as (_ & Hflat).
  cbn [fst snd collapse] in Hflat. rewrite <- Hcol in Hflat.
  unfold flat_frame in Hflat.
  rewrite (close_rendered h 0 nm k cs Hmade) in Hflat.
  cbn [attach_all rendered_frame f_depth] in Hflat.
  rewrite flat_node_unfold in Hflat. cbn [name children] in Hflat.
  change (flat_node 0 (close {| f_depth := 0; f_name := nm;
            f_dir := match hint_of k with HintDirectory => true | Unset => false end
                     || h nm;
            f_children := [] |}))
    with [(0%Z, nm)] in Hflat.
  cbn [app] in Hflat. injection Hflat as Hflat.
  assert (Hnone : filter is_depth0 ls' = []).
  { apply filter_none. intros l Hl. unfold is_depth0. apply Z.eqb_neq.
    assert (Hin : In (entry l) (flat_map (flat_node 1) cs))
      by (rewrite Hflat; apply in_map, Hl).
    apply in_flat_map in Hin as (c & _ & Hin).
    pose proof (flat_node_depths c 1%Z) as Hd.
    rewrite Forall_forall in Hd. specialize (Hd _ Hin). cbn [entry fst] in Hd.
    lia. }
  unfold build_lines. cbn [filter]. unfold is_depth0 at 1 3. cbn [l_depth Z.eqb].
  rewrite Hnone. cbn [List.length Nat.leb].
  rewrite (open_frame_rendered h no 0 nm k Hgood), Hrun.
  unfold close_all. rewrite <- Hcol, (close_rendered h 0 nm k cs Hmade).
  reflexivity.
Qed.

End RoundTrip.

(** C8: for every input [build_tree] accepts, serializing the tree it
    returns back into indented text and parsing that text again returns
    the same tree (the same names, kinds and order of children) and the
    same root name; and [build_tree] accepts every input whose classified
    lines are well-formed. *)
Theorem C8_round_trip (h : string -> bool) (text : string) :
  (forall (root : Node) (rn : string),
      TreeParser.build_tree h text = inr (root, rn) ->
      TreeParser.build_tree h (TreeParser.serialize root) = inr (root, rn))
  /\ (forall ls : list TreeParser.Line,
      TreeParser.classified (split LF text) = inr ls ->
      TreeParser.well_formed ls ->
      exists (root : Node) (rn : string),
        TreeParser.build_tree h text = inr (root, rn)).
Proof.
  split.
  - intros root rn Hb.
    destruct (build_tree_built h text root rn Hb) as (ls & Hc & Hbuilt).
    pose proof (classified_lines_ok text ls Hc) as Hok.
    destruct (built_made h ls root rn Hok Hbuilt) as (Hcs & Hshape).
    destruct root as [nm k cs]. cbn [name kind children] in *.
    unfold TreeParser.build_tree, TreeParser.build, TreeParser.serialize,
      TreeParser.serialize_lines. cbn [name children].
    destruct Hshape as [(-> & -> & -> & Hlen) | (Hne & -> & Hmade)].
    + cbn [String.eqb].
      pose proof (serialize_forest_ok h cs 0 Hcs) as Hall.
      assert (Hnil : flat_map (TreeParser.serialize_node 0) cs <> []).
      { destruct cs as [|[nm1 k1 cs1] cs]; [cbn in Hlen; lia | discriminate]. }
      rewrite (split_serialized _ Hnil Hall).
      destruct (classified_total _ Hall) as (ls2 & Hc2 & Hls2). rewrite Hc2.
      apply rebuild_lines_multi; assumption.
    + apply String.eqb_neq in Hne. rewrite Hne.
      assert (Hroot : TreeParser.all_nodes (TreeParser.made_node h)
                        (mkNode rn k cs)).
      { apply all_nodes_unfold. split; assumption. }
      pose proof (serialize_node_ok h _ Hroot 0) as Hall.
      assert (Hnil : TreeParser.serialize_node 0 (mkNode rn k cs) <> [])
        by discriminate.
      rewrite (split_serialized _ Hnil Hall).
      destruct (classified_total _ Hall) as (ls2 & Hc2 & Hls2). rewrite Hc2.
      apply rebuild_lines_single; assumption.
  - intros ls Hc Hwf.
    unfold TreeParser.build_tree, TreeParser.build. rewrite Hc.
    apply build_lines_total; [apply (classified_depths _ _ Hc) | exact Hwf].
Qed.

Lemma C8_round_trip_witness :
  TreeParser.serialize Samples.project_tree
  = ("project/" ++ nl ++ "    README.md" ++ nl ++ "    src/" ++ nl
       ++ "        main.py")%string
  /\ TreeParser.build_tree Samples.no_heuristic
       (TreeParser.serialize Samples.project_tree)
     = inr (Samples.project_tree, "project"%string)
  /\ TreeParser.build_tree Samples.no_heuristic
       (TreeParser.serialize Samples.multi_tree)
     = inr (Samples.multi_tree, ""%string)
  /\ exists (root : Node) (rn : string),
      TreeParser.build_tree Samples.no_heuristic ("a/" ++ nl ++ "b/")%string
      = inr (root, rn).
Proof.
  split; [reflexivity|]. split; [|split].
  - apply (proj1 (C8_round_trip Samples.no_heuristic
                    ("project/" ++ nl ++ "├── README.md" ++ nl ++ "├── src/"
                       ++ nl ++ "│   └── main.py" ++ nl)%string)).
    reflexivity.
  - apply (proj1 (C8_round_trip Samples.no_heuristic
                    ("a/" ++ nl ++ "b/")%string)).
    reflexivity.
  - apply (proj2 (C8_round_trip Samples.no_heuristic
                    ("a/" ++ nl ++ "b/")%string)
             [TreeParser.mkLine 1 0 "a/" TreeParser.HintDirectory;
              TreeParser.mkLine 2 0 "b/" TreeParser.HintDirectory]);
      [reflexivity|].
    split; [reflexivity|]. split; [|reflexivity].
    repeat constructor; eexists; reflexivity.
Defined.

(* ===================================================================== *)
(** * Further properties of the driver *)
(* ===================================================================== *)

Section DriverStages.
Import Cli CliRun.

Lemma resolve_outcome (w : World) (args : Args) :
  outcome (resolve_base_path w args) = base_path_of w args.
Proof.
  unfold resolve_base_path, base_path_of, uses_cwd.
  destruct ((base_dir args =? ".") || (base_dir args =? "")); reflexivity.
Qed.

Lemma resolve_trace (w : World) (args : Args) :
  trace (resolve_base_path w args) = cwd_events args.
Proof.
  unfold resolve_base_path, cwd_events, uses_cwd.
  destruct ((base_dir args =? ".") || (base_dir args =? "")); reflexivity.
Qed.

Lemma parse_trace_events (w : World) (args : Args) :
  trace (parse w args) = parse_events args.
Proof.
  unfold parse, parse_events, selected_call.
  destruct (format args); cbn [Format_is_json]; [|reflexivity].
  destruct (verbose args); cbn;
    destruct (TreeParser_build_tree w (tree_file args)); reflexivity.
Qed.

Lemma announce_trace_events (w : World) (args : Args) (bp rn : string) :
  announce w args bp rn (should_skip_root args bp rn)
  = (announce_events w args bp rn, inr tt).
Proof.
  unfold announce, announce_events, skipping_message, building_message.
  destruct (should_skip_root args bp rn), (verbose args); reflexivity.
Qed.

(** The run of [main], stage by stage: the events up to the first call
    that raises, then the handler of the exception. *)
Lemma main_by_stages (w : World) (args : Args) :
  main w args
  = match snd (stages_of_run w args) with
    | Some e => (fst (stages_of_run w args) ++ trace (handle args e),
                 outcome (handle args e))
    | None => (fst (stages_of_run w args), inr 0%Z)
    end.
Proof.
  unfold main, stages_of_run, try_body.
  pose proof (parse_trace w args) as (Hpo & _).
  pose proof (parse_trace_events w args) as Hpt.
  pose proof (resolve_outcome w args) as Hro.
  pose proof (resolve_trace w args) as Hrt.
  destruct (parse w args) as [tp rp]. cbn [trace outcome fst snd] in Hpo, Hpt.
  subst tp rp.
  destruct (selected_build_tree w args) as [e | [root rn]]; cbn [bind fst snd].
  { destruct (handle args e); reflexivity. }
  destruct (resolve_base_path w args) as [tb rb].
  cbn [trace outcome fst snd] in Hro, Hrt. subst tb rb.
  destruct (base_path_of w args) as [e | bp]; cbn [bind fst snd].
  { destruct (handle args e). rewrite <- ?app_assoc. reflexivity. }
  rewrite announce_trace_events. cbn [bind call fst snd].
  unfold events_to_builder, build_and_report.
  destruct (FilesystemBuilder_init w bp (dry_run args) (verbose args))
    as [e | b]; cbn [bind call fst snd].
  { destruct (handle args e). rewrite <- ?app_assoc. reflexivity. }
  destruct (FilesystemBuilder_build w b root (should_skip_root args bp rn))
    as [e | []]; cbn [bind call fst snd app].
  { destruct (handle args e). rewrite <- ?app_assoc. reflexivity. }
  destruct (FilesystemBuilder_print_summary w b) as [e | []];
    cbn [bind call fst snd app].
  { destruct (handle args e). rewrite <- ?app_assoc. reflexivity. }
  unfold success_message.
  destruct (dry_run args); cbn [negb when print ret bind fst snd app];
    rewrite <- ?app_assoc; reflexivity.
Qed.

End DriverStages.

Section DriverRuns.
Import Cli CliRun.

(** Case analysis on a run of [main] by the call that raises first. *)
Ltac by_stages w args :=
  rewrite ?(resolve_outcome w args), ?(main_by_stages w args);
  unfold stages_of_run, first_failure;
  let e := fresh "e" in
  let root := fresh "root" in
  let rn := fresh "rn" in
  let bp := fresh "bp" in
  let b := fresh "b" in
  destruct (selected_build_tree w args) as [e | [root rn]] eqn:Hsel;
  [ | destruct (base_path_of w args) as [e | bp] eqn:Hbase;
      [ | destruct (FilesystemBuilder_init w bp (dry_run args) (verbose args))
            as [e | b] eqn:Hinit;
          [ | destruct (FilesystemBuilder_build w b root
                          (should_skip_root args bp rn)) as [e | []] eqn:Hbuild;
              [ | destruct (FilesystemBuilder_print_summary w b)
                    as [e | []] eqn:Hsum ] ] ] ];
  cbv beta iota zeta; cbn [trace outcome fst snd].

(** The flags that decide the progress lines of a run: [verbose] first,
    then whatever test is left in the goal. *)
Ltac by_flags args :=
  unfold events_to_builder, parse_events, cwd_events, announce_events,
    selected_call;
  try match goal with
      | |- context [format args] => destruct (format args) eqn:?
      end;
  cbn [Format_is_json];
  try match goal with
      | |- context [verbose args] => destruct (verbose args) eqn:?
      end;
  rewrite ?andb_true_r, ?andb_false_r;
  repeat match goal with
         | |- context [if ?x then _ else _] => destruct x eqn:?
         end;
  cbn [app].

Ltac in_trace H :=
  cbn [In] in H;
  repeat match type of H with
         | _ \/ _ => destruct H as [H | H]
         end;
  try discriminate H; try contradiction.

(** The lines of stdout differ from one another in their first bytes. *)
Ltac found := cbn [In]; repeat first [left; reflexivity | right].

Ltac other_line H :=
  injection H as H;
  unfold success_message, parsing_message, skipping_message,
    building_message, nl, LF in H;
  cbn [append ascii_of_nat ascii_of_pos] in H;
  discriminate H.




(** X4: the line a failed run writes to stderr names the exception that
    cut it short: the message of a [FileNotFoundError], of a
    [TreeParseError] or of a [FilesystemBuildError] after "Error:", the
    message of any other [Exception] after "Unexpected error:", and a
    fixed line for [KeyboardInterrupt]. *)
Theorem stderr_line_by_exception (w : World) (args : Args) (e : PyExc) :
  first_failure w args = Some e ->
  filter is_stderr (trace (main w args))
  = match e with
    | FileNotFoundError msg => [EvStderr ("❌ Error: " ++ msg)]
    | ExTreeParseError pe =>
        [EvStderr ("❌ Error: " ++ str_TreeParseError pe)]
    | FilesystemBuildError msg => [EvStderr ("❌ Error: " ++ msg)]
    | KeyboardInterrupt => [EvStderr (nl ++ "⚠️  Interrupted by user")]
    | Exception msg => [EvStderr ("❌ Unexpected error: " ++ msg)]
    | BaseException _ => []
    end.
Proof.
  revert e. by_stages w args; intros e' He'; try discriminate He';
    injection He' as <-; destruct e; cbn [handle trace outcome fst snd];
    by_flags args; rewrite <- ?app_assoc; reflexivity.
Qed.

Lemma stderr_line_by_exception_witness :
  let w := world_of (inl (FileNotFoundError "tree.txt")) (inr "/srv")
             (inr tt) (inr tt) in
  let args := Samples.args_default "tree.txt" "." in
  first_failure w args = Some (FileNotFoundError "tree.txt")
  /\ filter is_stderr (trace (main w args))
     = [EvStderr "❌ Error: tree.txt"].
Proof.
  split; [reflexivity|].
  exact (stderr_line_by_exception
           (world_of (inl (FileNotFoundError "tree.txt")) (inr "/srv")
              (inr tt) (inr tt))
           (Samples.args_default "tree.txt" ".") _ eq_refl).
Defined.

(** X5: [main] prints the line of success exactly in the runs that
    return 0 and are not dry runs. *)
Theorem success_message_iff (w : World) (args : Args) :
  In (EvStdout success_message) (trace (main w args))
  <-> outcome (main w args) = inr 0%Z /\ dry_run args = false.
Proof.
  by_stages w args; try destruct e; cbn [handle trace outcome fst snd];
    by_flags args; rewrite <- ?app_assoc; cbn [app];
    (split;
     [ intros H; in_trace H; try other_line H; auto
     | intros [H1 H2]; try discriminate H1; try discriminate H2;
       found ]).
Qed.

(** X6: in a run that is not verbose, [main] itself prints nothing to
    stdout but the line of success, and no traceback; what the builder
    prints is the builder's. *)
Theorem quiet_run_stdout (w : World) (args : Args) :
  verbose args = false ->
  filter is_stdout (trace (main w args))
  = match outcome (main w args) with
    | inr 0%Z => if dry_run args then [] else [EvStdout success_message]
    | _ => []
    end
  /\ ~ In EvTraceback (trace (main w args)).
Proof.
  intros Hv.
  by_stages w args; try destruct e; cbn [handle trace outcome fst snd];
    unfold events_to_builder, parse_events, cwd_events, announce_events,
      selected_call;
    rewrite Hv, ?andb_false_r;
    destruct (format args), (uses_cwd args); try destruct (dry_run args);
    cbn [Format_is_json app]; rewrite <- ?app_assoc;
    cbn [app filter is_stdout In]; (split; [reflexivity | intuition discriminate]).
Qed.

Lemma quiet_run_stdout_witness :
  let w := world_of parsed_small (inr "/srv") (inr tt) (inr tt) in
  let args := Samples.args_default "tree.txt" "." in
  verbose args = false
  /\ filter is_stdout (trace (main w args)) = [EvStdout success_message]
  /\ ~ In EvTraceback (trace (main w args)).
Proof.
  split; [reflexivity|].
  exact (quiet_run_stdout
           (world_of parsed_small (inr "/srv") (inr tt) (inr tt))
           (Samples.args_default "tree.txt" ".") eq_refl).
Defined.

(** X7: the traceback is printed exactly when the run is verbose and is
    cut short by an [Exception] that has no handler of its own. *)
Theorem traceback_iff (w : World) (args : Args) :
  In EvTraceback (trace (main w args))
  <-> verbose args = true
      /\ exists msg : string, first_failure w args = Some (Exception msg).
Proof.
  by_stages w args; try destruct e; cbn [handle trace outcome fst snd];
    by_flags args; rewrite <- ?app_assoc; cbn [app];
    (split;
     [ intros H; in_trace H; eauto
     | intros (H1 & msg' & H2); try discriminate H1; try discriminate H2;
       found ]).
Qed.

(** X8: the builder is constructed with the [--dry-run] and [--verbose]
    flags as given and, for its base path, with the working directory
    when [--base-dir] is ["."] or empty and with [--base-dir] itself
    otherwise. *)
Theorem builder_constructed_with (w : World) (args : Args) (b : Builder) :
  In (EvNewBuilder b) (trace (main w args)) ->
  b_dry_run b = dry_run args
  /\ b_verbose b = verbose args
  /\ (if (base_dir args =? ".")%string || (base_dir args =? "")%string
      then Path_cwd w = inr (b_base_path b)
      else b_base_path b = base_dir args).
Proof.
  fold (uses_cwd args).
  by_stages w args; try destruct e; cbn [handle trace outcome fst snd];
    unfold base_path_of in *;
    by_flags args; rewrite <- ?app_assoc; cbn [app];
    intros H; in_trace H; injection H as <-; cbn [b_dry_run b_verbose b_base_path];
    repeat split; congruence.
Qed.

Lemma builder_constructed_with_witness :
  let w := world_of parsed_small (inr "/srv") (inr tt) (inr tt) in
  let args := Samples.args_default "tree.txt" "." in
  let b := mkBuilder "/srv" false false in
  In (EvNewBuilder b) (trace (main w args))
  /\ b_dry_run b = false /\ b_verbose b = false
  /\ Path_cwd w = inr (b_base_path b).
Proof.
  split; [right; right; left; reflexivity|].
  exact (builder_constructed_with
           (world_of parsed_small (inr "/srv") (inr tt) (inr tt))
           (Samples.args_default "tree.txt" ".")
           (mkBuilder "/srv" false false)
           (or_intror (or_intror (or_introl eq_refl)))).
Defined.


(** X10: the collaborators are called in the order parser, [Path.cwd],
    construction of the builder, [build], [print_summary], each at most
    once, and the first call is the call of the selected parser. *)
Theorem collaborators_in_order (w : World) (args : Args) :
  increasing (stages (trace (main w args))) = true
  /\ hd_error (filter is_collaborator (trace (main w args)))
     = Some (selected_call args).
Proof.
  unfold stages.
  by_stages w args; try destruct e; cbn [handle trace outcome fst snd];
    by_flags args; rewrite <- ?app_assoc; cbn [app]; split; reflexivity.
Qed.

(** X11: when [build] raises a [FilesystemBuildError], the run ends with the
    error on stderr and the exit code 1; [print_summary] is not called
    and the line of success is not printed. *)
Theorem build_failure_stops_run (w : World) (args : Args) (root : Node)
    (rn bp : string) (b : Builder) (msg : string) :
  selected_build_tree w args = inr (root, rn) ->
  outcome (resolve_base_path w args) = inr bp ->
  FilesystemBuilder_init w bp (dry_run args) (verbose args) = inr b ->
  FilesystemBuilder_build w b root (should_skip_root args bp rn)
  = inl (FilesystemBuildError msg) ->
  outcome (main w args) = inr 1%Z
  /\ last (trace (main w args)) EvCwd = EvStderr ("❌ Error: " ++ msg)
  /\ ~ In EvPrintSummary (trace (main w args))
  /\ ~ In (EvStdout success_message) (trace (main w args)).
Proof.
  rewrite resolve_outcome, main_by_stages. unfold stages_of_run.
  intros -> -> -> ->. cbn [handle trace outcome fst snd].
  by_flags args; rewrite <- ?app_assoc; cbn [app last];
    (repeat split; try reflexivity; intros H; in_trace H; other_line H).
Qed.

Lemma build_failure_stops_run_witness :
  let w := world_of parsed_small (inr "/srv")
             (inl (FilesystemBuildError "disk full")) (inr tt) in
  let args := Samples.args_default "tree.txt" "." in
  let b := mkBuilder "/srv" false false in
  (selected_build_tree w args = inr (small_tree, "project")
   /\ outcome (resolve_base_path w args) = inr "/srv"
   /\ FilesystemBuilder_init w "/srv" (dry_run args) (verbose args) = inr b
   /\ FilesystemBuilder_build w b small_tree
        (should_skip_root args "/srv" "project")
      = inl (FilesystemBuildError "disk full"))
  /\ outcome (main w args) = inr 1%Z
  /\ last (trace (main w args)) EvCwd = EvStderr "❌ Error: disk full"
  /\ ~ In EvPrintSummary (trace (main w args))
  /\ ~ In (EvStdout success_message) (trace (main w args)).
Proof.
  split; [repeat split|].
  exact (build_failure_stops_run
           (world_of parsed_small (inr "/srv")
              (inl (FilesystemBuildError "disk full")) (inr tt))
           (Samples.args_default "tree.txt" ".")
           small_tree "project" "/srv" (mkBuilder "/srv" false false)
           "disk full" eq_refl eq_refl eq_refl eq_refl).
Defined.

(** X12: when the selected parser raises, whatever the exception, no other
    collaborator is called: neither [Path.cwd] nor the builder. *)
Theorem parser_failure_stops_run (w : World) (args : Args) (e : PyExc) :
  selected_build_tree w args = inl e ->
  filter is_collaborator (trace (main w args)) = [selected_call args].
Proof.
  rewrite main_by_stages. unfold stages_of_run. intros ->.
  destruct e; cbn [handle trace outcome fst snd];
    by_flags args; rewrite <- ?app_assoc; reflexivity.
Qed.

Lemma parser_failure_stops_run_witness :
  let w := world_of (inl KeyboardInterrupt) (inr "/srv") (inr tt) (inr tt) in
  let args := Samples.args_default "tree.txt" "." in
  selected_build_tree w args = inl KeyboardInterrupt
  /\ filter is_collaborator (trace (main w args))
     = [EvTreeBuildTree "tree.txt"].
Proof.
  split; [reflexivity|].
  exact (parser_failure_stops_run
           (world_of (inl KeyboardInterrupt) (inr "/srv") (inr tt) (inr tt))
           (Samples.args_default "tree.txt" ".") KeyboardInterrupt eq_refl).
Defined.

(** X13: a tree file that is not found: the run prints the error to stderr
    right after the parser call and returns 1. *)
Theorem missing_tree_file (w : World) (args : Args) (msg : string) :
  selected_build_tree w args = inl (FileNotFoundError msg) ->
  outcome (main w args) = inr 1%Z
  /\ trace (main w args)
     = trace (parse w args) ++ [EvStderr ("❌ Error: " ++ msg)].
Proof.
  rewrite main_by_stages, parse_trace_events. unfold stages_of_run.
  intros ->. split; reflexivity.
Qed.

Lemma missing_tree_file_witness :
  let w := world_of (inl (FileNotFoundError "absent.txt")) (inr "/srv")
             (inr tt) (inr tt) in
  let args := Samples.args_default "absent.txt" "." in
  selected_build_tree w args = inl (FileNotFoundError "absent.txt")
  /\ outcome (main w args) = inr 1%Z
  /\ trace (main w args)
     = [EvTreeBuildTree "absent.txt"; EvStderr "❌ Error: absent.txt"].
Proof.
  split; [reflexivity|].
  exact (missing_tree_file
           (world_of (inl (FileNotFoundError "absent.txt")) (inr "/srv")
              (inr tt) (inr tt))
           (Samples.args_default "absent.txt" ".") "absent.txt" eq_refl).
Defined.

(** X14: [main] prints the progress line of the parser exactly in the
    verbose runs of the text format, whether the parser returns or
    raises: the JSON format has no such line. *)
Theorem parsing_line_iff (w : World) (args : Args) :
  existsb is_parsing_line (trace (main w args))
  = negb (Format_is_json (format args)) && verbose args.
Proof.
  by_stages w args; try destruct e; cbn [handle trace outcome fst snd];
    by_flags args; rewrite <- ?app_assoc; reflexivity.
Qed.

End DriverRuns.

(* ===================================================================== *)
(** * The skip decision and the shape of the base path *)
(* ===================================================================== *)

Section DriverPaths.
Import Cli CliRun.

Lemma split_not_nil (c : ascii) (s : string) : split c s <> [].
Proof.
  destruct s as [|x s]; cbn [split]; [discriminate|].
  destruct (Ascii.eqb x c); [discriminate|].
  destruct (split c s); discriminate.
Qed.

Lemma split_without (c : ascii) (x : string) :
  has_char c x = false -> split c x = [x].
Proof.
  induction x as [|y x IH]; [reflexivity|].
  cbn [has_char split]. intros H. apply orb_false_iff in H as [Hy Hx].
  rewrite Hy, (IH Hx). reflexivity.
Qed.

Lemma split_app_sep (c : ascii) (a b : string) :
  split c (a ++ String c b) = split c a ++ split c b.
Proof.
  induction a as [|x a IH].
  - cbn [append split]. rewrite Ascii.eqb_refl. reflexivity.
  - cbn [append split]. rewrite IH.
    destruct (Ascii.eqb x c); [reflexivity|].
    destruct (split c a) as [|p ps] eqn:Hs; [|reflexivity].
    exfalso. exact (split_not_nil c a Hs).
Qed.

Lemma split_pieces (c : ascii) (s : string) :
  forall p, In p (split c s) -> has_char c p = false.
Proof.
  induction s as [|x s IH]; cbn [split].
  - intros p [<- | []]. reflexivity.
  - destruct (Ascii.eqb x c) eqn:Hx.
    + intros p [<- | Hp]; [reflexivity | exact (IH p Hp)].
    + destruct (split c s) as [|q qs].
      * intros p [<- | []]. cbn [has_char]. rewrite Hx. reflexivity.
      * intros p [<- | Hp].
        -- cbn [has_char]. rewrite Hx. apply IH. left. reflexivity.
        -- apply IH. right. exact Hp.
Qed.

Lemma last_app_cons {A : Type} (l l' : list A) (x d : A) :
  last (l ++ x :: l') d = last (x :: l') d.
Proof.
  induction l as [|y l IH]; [reflexivity|].
  cbn [app]. destruct (l ++ x :: l') eqn:Hl; [destruct l; discriminate|].
  change (last (y :: a :: l0) d) with (last (a :: l0) d). exact IH.
Qed.

Lemma last_in_or_default {A : Type} (l : list A) (d : A) :
  last l d = d \/ In (last l d) l.
Proof.
  induction l as [|x l IH]; [left; reflexivity|].
  destruct l as [|y l]; [right; left; reflexivity|].
  change (last (x :: y :: l) d) with (last (y :: l) d).
  destruct IH as [IH | IH]; [left; exact IH | right; right; exact IH].
Qed.

(** The components of a path joined to another by a slash. *)
Lemma Path_parts_join (a b : string) :
  Path_parts (a ++ "/" ++ b) = Path_parts a ++ Path_parts b.
Proof.
  unfold Path_parts. change ("/" ++ b)%string with (String "/" b).
  rewrite split_app_sep. apply filter_app.
Qed.

(** A name without a slash, not empty and not ["."], is its only
    component. *)
Lemma Path_parts_name (n : string) :
  has_char "/" n = false -> n <> "" -> n <> "." -> Path_parts n = [n].
Proof.
  intros Hs He Hd. unfold Path_parts. rewrite (split_without _ _ Hs).
  cbn [filter]. apply String.eqb_neq in He, Hd. rewrite He, Hd. reflexivity.
Qed.

(** A component is not empty, is not ["."] and holds no slash. *)
Lemma Path_parts_component (p c : string) :
  In c (Path_parts p) -> c <> "" /\ c <> "." /\ has_char "/" c = false.
Proof.
  unfold Path_parts. intros H. apply filter_In in H as [Hin Hc].
  apply andb_true_iff in Hc as [He Hd].
  apply negb_true_iff in He, Hd. apply String.eqb_neq in He, Hd.
  repeat split; [exact He | exact Hd | exact (split_pieces _ _ _ Hin)].
Qed.

Lemma Path_name_join (a n : string) :
  has_char "/" n = false -> n <> "" -> n <> "." ->
  Path_name (a ++ "/" ++ n) = n.
Proof.
  intros Hs He Hd. unfold Path_name.
  rewrite Path_parts_join, (Path_parts_name n Hs He Hd).
  apply last_app_cons.
Qed.

Lemma Path_name_trailing_slash (p : string) :
  Path_name (p ++ "/") = Path_name p.
Proof.
  unfold Path_name. change "/"%string with ("/" ++ "")%string.
  rewrite Path_parts_join. change (Path_parts "") with (@nil string).
  rewrite app_nil_r. reflexivity.
Qed.

(** X15: the skip decision looks at the last component of the base path
    only: whatever the directories before it, and with or without a
    trailing slash, a base path that ends in the root name is skipped
    unless [--no-skip-root] is given.  The root name is taken to be a
    plain name: not empty, not ["."] and without a slash. *)
Theorem skip_by_last_component (args : Args) (dir rn : string) :
  has_char "/" rn = false -> rn <> "" -> rn <> "." ->
  should_skip_root args (dir ++ "/" ++ rn) rn = negb (no_skip_root args)
  /\ should_skip_root args ((dir ++ "/" ++ rn) ++ "/") rn
     = negb (no_skip_root args).
Proof.
  intros Hs He Hd. unfold should_skip_root.
  rewrite Path_name_trailing_slash, (Path_name_join dir rn Hs He Hd).
  rewrite String.eqb_refl. apply String.eqb_neq in He. rewrite He.
  cbn [negb]. rewrite !andb_true_r. split; reflexivity.
Qed.

Lemma skip_by_last_component_witness :
  let args := Samples.args_default "tree.txt" "/home/u/project" in
  (has_char "/" "project" = false /\ "project" <> "" /\ "project" <> ".")
  /\ should_skip_root args "/home/u/project" "project" = true
  /\ should_skip_root args "/home/u/project/" "project" = true.
Proof.
  split; [repeat split; discriminate|].
  apply (skip_by_last_component
           (Samples.args_default "tree.txt" "/home/u/project")
           "/home/u" "project"); [reflexivity | discriminate | discriminate].
Defined.

(** X16: a root name that holds a slash, or is ["."], is never skipped,
    whatever the base path and the flags: the name of a path is one of
    its components. *)
Theorem root_name_never_skipped (args : Args) (bp rn : string) :
  has_char "/" rn = true \/ rn = "." ->
  should_skip_root args bp rn = false.
Proof.
  intros H. unfold should_skip_root.
  destruct (Path_name bp =? rn) eqn:Hn; [|apply andb_false_r].
  apply String.eqb_eq in Hn. unfold Path_name in Hn.
  destruct (last_in_or_default (Path_parts bp) "") as [Hl | Hl].
  - rewrite Hl in Hn. subst rn. cbn [String.eqb negb].
    rewrite andb_false_r. reflexivity.
  - rewrite Hn in Hl. apply Path_parts_component in Hl as (_ & Hd & Hs).
    destruct H as [H | H]; [rewrite H in Hs; discriminate | contradiction].
Qed.

Lemma root_name_never_skipped_witness :
  let args := Samples.args_default "tree.txt" "/home/u/src/project" in
  (has_char "/" "src/project" = true \/ "src/project" = ".")
  /\ should_skip_root args "/home/u/src/project" "src/project" = false.
Proof.
  split; [left; reflexivity|].
  exact (root_name_never_skipped
           (Samples.args_default "tree.txt" "/home/u/src/project")
           "/home/u/src/project" "src/project" (or_introl eq_refl)).
Defined.

End DriverPaths.
